(** * Payroll processor: a shallow embedding of [payroll_processor.py]

    The development has three layers.

    - [Py]: the fragment of the Python run time the program relies on:
      exceptions and results, dynamically typed attribute values, string
      joining.
    - [PyDecimal]: the finite values of [decimal.Decimal] under the default
      context the program runs with ([prec = 28], [ROUND_HALF_EVEN],
      [Emax = 999999], [Emin = -999999], [Overflow] trapped), with the
      operations the program uses: comparison, [+], [-], [*], [str] and the
      format specification [.2f].  Finite operands never yield an infinity
      or a NaN under this context, so the fragment is closed; the special
      values themselves are not modelled.
    - [Payroll]: [Employee], [PayrollProcessor] and their methods, written
      operation for operation after the source.  The two methods with a
      [try ... except ... raise] block run in a state made of the processor
      object and the log.

    The theorems follow: digits and text, values and comparison, rounding,
    validation, the payroll calculation, the report. *)

From Stdlib Require Import ZArith NArith List String Ascii Bool Lia.
From Stdlib Require Import QArith Qpower Qabs.
From Stdlib Require Import Lqa.
Import ListNotations.

Local Open Scope string_scope.
Local Open Scope Z_scope.

(** ** Python run time: exceptions and results *)

Module Py.

(** The exceptions the program can raise on finite decimals: the
    [ValueError]s of the validation code and [decimal.Overflow], the only
    trapped signal an arithmetic operation on finite operands can
    raise. *)
Inductive exn : Type :=
| ValueError (msg : string)
| Overflow.

Inductive result (A : Type) : Type :=
| Ok (a : A)
| Raise (e : exn).

Arguments Ok {A} a.
Arguments Raise {A} e.

Definition bind {A B} (r : result A) (k : A -> result B) : result B :=
  match r with
  | Ok a => k a
  | Raise e => Raise e
  end.

(** [str(e)] for an exception instance.  For a decimal signal CPython's
    [_decimal] renders the list of signals raised. *)
Definition exn_str (e : exn) : string :=
  match e with
  | ValueError msg => msg
  | Overflow => "[<class 'decimal.Overflow'>]"
  end.

(** A value of a dynamically typed attribute: either a [str], or any other
    object, of which the program only observes the truth value and the
    text it formats to. *)
Inductive object : Type :=
| PyStr (s : string)
| PyOther (truthy : bool) (shown : string).

(** [bool(o)] *)
Definition truth (o : object) : bool :=
  match o with
  | PyStr s => negb (String.eqb s "")
  | PyOther t _ => t
  end.

(** [isinstance(o, str)] *)
Definition isinstance_str (o : object) : bool :=
  match o with
  | PyStr _ => true
  | PyOther _ _ => false
  end.

(** [format(o, "")], the text an f-string field [{o}] expands to. *)
Definition format_obj (o : object) : string :=
  match o with
  | PyStr s => s
  | PyOther _ shown => shown
  end.

(** The line separator ["\n"]. *)
Definition nl : string := String (ascii_of_nat 10) EmptyString.

(** [sep.join(lines)] *)
Definition join (sep : string) (lines : list string) : string :=
  String.concat sep lines.

End Py.

Export Py.

Declare Scope py_scope.
Delimit Scope py_scope with py.
Notation "x <- c1 ;; c2" := (bind c1 (fun x => c2))
  (at level 61, c1 at next level, right associativity) : py_scope.
Local Open Scope py_scope.

(** ** [decimal.Decimal], finite values, default context *)

Module PyDecimal.

(** A finite decimal is [(-1)^_sign * _int * 10^_exp].  [Decimal] keeps the
    coefficient as a digit string without leading zeros; here it is the
    number those digits denote. *)
Record Decimal : Type := mkDecimal {
  _sign : bool;
  _int : N;
  _exp : Z
}.

(** [Decimal('<digits>E<exp>')] and [Decimal(n)] for an [int]. *)
Definition dec (coeff : Z) (exp : Z) : Decimal :=
  mkDecimal (coeff <? 0) (Z.to_N (Z.abs coeff)) exp.

Definition of_int (n : Z) : Decimal := dec n 0.

(** *** The default context *)

Definition prec : Z := 28.
Definition Emax : Z := 999999.
Definition Emin : Z := -999999.
Definition Etiny : Z := Emin - prec + 1.
Definition Etop : Z := Emax - prec + 1.

(** *** Digits *)

Definition digit_char (d : N) : ascii := ascii_of_N (48 + d).

Fixpoint digits_fuel (fuel : nat) (n : N) (acc : string) : string :=
  match fuel with
  | O => acc
  | S fuel' =>
      let acc' := String (digit_char (n mod 10)) acc in
      if (n <? 10)%N then acc' else digits_fuel fuel' (n / 10) acc'
  end.

(** [str(n)] for a non-negative [int]: the coefficient's digit string. *)
Definition str_int (n : N) : string :=
  digits_fuel (S (N.to_nat (N.log2 n))) n "".

(** [len(self._int)] *)
Definition ndigits (n : N) : Z := Z.of_nat (String.length (str_int n)).

(** ["0" * k] *)
Fixpoint zeros (k : nat) : string :=
  match k with
  | O => ""
  | S k' => String "0" (zeros k')
  end.

(** ["%+d" % z] *)
Definition str_signed (z : Z) : string :=
  (if z <? 0 then "-" else "+") ++ str_int (Z.to_N (Z.abs z)).

(** *** Rounding *)

(** [ROUND_HALF_EVEN]: the coefficient [c] loses its [k >= 1] low digits;
    a discarded part above one half, or of exactly one half next to an odd
    kept digit, rounds up ([changed = 1] in [_pydecimal]). *)
Definition round_half_even (c : N) (k : Z) : bool * N :=
  let p := (10 ^ Z.to_N k)%N in
  let q := (c / p)%N in
  let r := (c mod p)%N in
  let up := match (2 * r ?= p)%N with
            | Gt => true
            | Eq => N.odd q
            | Lt => false
            end in
  (up, q).

(** [Decimal._fix]: round to the context.  A zero only has its exponent
    clamped; a result whose adjusted exponent exceeds [Emax] raises the
    trapped [Overflow]; a result with more than [prec] digits, or below
    [Etiny], is rounded (the signals [Rounded], [Inexact], [Subnormal],
    [Underflow] and [Clamped] are not trapped and leave no trace the
    program reads). *)
Definition _fix (d : Decimal) : result Decimal :=
  if (_int d =? 0)%N then
    Ok (mkDecimal (_sign d) 0 (Z.min (Z.max (_exp d) Etiny) Emax))
  else
    let exp_min := ndigits (_int d) + _exp d - prec in
    if Etop <? exp_min then Raise Overflow
    else
      let exp_min := Z.max exp_min Etiny in
      if _exp d <? exp_min then
        let '(up, q) := round_half_even (_int d) (exp_min - _exp d) in
        let coeff := if up then (q + 1)%N else q in
        let carry := up && (prec <? ndigits coeff) in
        let coeff := if carry then (coeff / 10)%N else coeff in
        let exp_min := if carry then exp_min + 1 else exp_min in
        if Etop <? exp_min then Raise Overflow
        else Ok (mkDecimal (_sign d) coeff exp_min)
      else Ok d.

(** [Decimal._rescale]: the same value at exponent [exp], padded with
    zeros or rounded half-even; no context precision applies. *)
Definition _rescale (d : Decimal) (exp : Z) : Decimal :=
  if (_int d =? 0)%N then mkDecimal (_sign d) 0 exp
  else if exp <=? _exp d then
    mkDecimal (_sign d) (_int d * 10 ^ Z.to_N (_exp d - exp))%N exp
  else
    let '(up, q) := round_half_even (_int d) (exp - _exp d) in
    mkDecimal (_sign d) (if up then (q + 1)%N else q) exp.

(** *** Arithmetic and comparison *)

(** The signed coefficient. *)
Definition signed (d : Decimal) : Z :=
  if _sign d then - Z.of_N (_int d) else Z.of_N (_int d).

(** The signed coefficient of [d] once aligned to the exponent [exp]. *)
Definition aligned (d : Decimal) (exp : Z) : Z :=
  signed d * 10 ^ (_exp d - exp).

(** [self + other]: the exact sum at the smaller exponent, then [_fix].
    A zero sum is negative only when both operands are negative zeros. *)
Definition __add__ (self other : Decimal) : result Decimal :=
  let exp := Z.min (_exp self) (_exp other) in
  let v := aligned self exp + aligned other exp in
  let sign := if v =? 0 then _sign self && _sign other else v <? 0 in
  _fix (mkDecimal sign (Z.to_N (Z.abs v)) exp).

Definition copy_negate (d : Decimal) : Decimal :=
  mkDecimal (negb (_sign d)) (_int d) (_exp d).

(** [self - other] *)
Definition __sub__ (self other : Decimal) : result Decimal :=
  __add__ self (copy_negate other).

(** [self * other]: the exact product, then [_fix]. *)
Definition __mul__ (self other : Decimal) : result Decimal :=
  _fix (mkDecimal (xorb (_sign self) (_sign other))
                  (_int self * _int other)%N
                  (_exp self + _exp other)).

(** [other * self] for an [int] on the left: [__rmul__ = __mul__]. *)
Definition __rmul__ (self other : Decimal) : result Decimal :=
  __mul__ self other.

(** [Decimal._cmp]: comparison of the values (both zeros are equal). *)
Definition _cmp (self other : Decimal) : comparison :=
  let exp := Z.min (_exp self) (_exp other) in
  aligned self exp ?= aligned other exp.

Definition __lt__ (self other : Decimal) : bool :=
  match _cmp self other with Lt => true | _ => false end.

Definition __le__ (self other : Decimal) : bool :=
  match _cmp self other with Gt => false | _ => true end.

Definition __gt__ (self other : Decimal) : bool :=
  match _cmp self other with Gt => true | _ => false end.

Definition __eq__ (self other : Decimal) : bool :=
  match _cmp self other with Eq => true | _ => false end.

(** *** Text *)

(** [s[i:j]] for [0 <= i <= j]. *)
Definition slice (i j : Z) (s : string) : string :=
  String.substring (Z.to_nat i) (Z.to_nat (j - i)) s.

(** [str(d)], also what the f-string field [{d}] expands to: the
    scientific string of the value, plain when the exponent is at most 0
    and more than -6 digits stand left of the point. *)
Definition __str__ (d : Decimal) : string :=
  let sign := if _sign d then "-" else "" in
  let digits := str_int (_int d) in
  let len := Z.of_nat (String.length digits) in
  let leftdigits := _exp d + len in
  let dotplace :=
    if (_exp d <=? 0) && (-6 <? leftdigits) then leftdigits else 1 in
  let intpart :=
    if dotplace <=? 0 then "0"
    else if len <=? dotplace then digits ++ zeros (Z.to_nat (dotplace - len))
    else slice 0 dotplace digits in
  let fracpart :=
    if dotplace <=? 0 then "." ++ zeros (Z.to_nat (- dotplace)) ++ digits
    else if len <=? dotplace then ""
    else "." ++ slice dotplace len digits in
  let exp :=
    if leftdigits =? dotplace then ""
    else "E" ++ str_signed (leftdigits - dotplace) in
  sign ++ intpart ++ fracpart ++ exp.

(** [format(d, ".<precision>f")]: the value rescaled half-even to
    [precision] decimals, laid out without exponent. *)
Definition format_f (precision : nat) (d : Decimal) : string :=
  let d := _rescale d (- Z.of_nat precision) in
  let sign := if _sign d then "-" else "" in
  let digits := str_int (_int d) in
  let len := Z.of_nat (String.length digits) in
  let dotplace := _exp d + len in
  let intpart :=
    if dotplace <? 0 then "0"
    else if dotplace =? 0 then "0"
    else slice 0 dotplace digits in
  let fracpart :=
    if dotplace <? 0 then zeros (Z.to_nat (- dotplace)) ++ digits
    else slice dotplace len digits in
  sign ++ intpart ++ (if String.eqb fracpart "" then "" else "." ++ fracpart).

(** *** Values *)

(** The rational number a decimal denotes. *)
Definition value (d : Decimal) : Q :=
  (inject_Z (signed d) * Qpower (inject_Z 10) (_exp d))%Q.

End PyDecimal.

Export PyDecimal.

(** ** The program *)

Module Payroll.

(** *** Constants *)

Definition REGULAR_HOURS : Z := 40.
Definition OVERTIME_MULTIPLIER : Decimal := dec 15 (-1).   (* Decimal('1.5') *)
Definition TAX_RATE : Decimal := dec 2 (-1).               (* Decimal('0.2') *)

(** *** Logging *)

(** The records [logger.error] emits, oldest first. *)
Inductive LogRecord : Type :=
| ERROR (message : string).

(** *** Employee *)

Record Employee : Type := mkEmployee {
  name : object;
  hours_worked : Decimal;
  hourly_rate : Decimal
}.

Definition InvalidName : exn :=
  ValueError "Employee name must be a non-empty string".
Definition NegativeHours : exn :=
  ValueError "Hours worked cannot be negative".
Definition NonPositiveRate : exn :=
  ValueError "Hourly rate must be positive".
Definition EmptyRoster : exn :=
  ValueError "Employee list cannot be empty".

(** [Employee.validate] *)
Definition validate (self : Employee) : result unit :=
  if negb (truth (name self)) || negb (isinstance_str (name self)) then
    Raise InvalidName
  else if __lt__ (hours_worked self) (of_int 0) then
    Raise NegativeHours
  else if __le__ (hourly_rate self) (of_int 0) then
    Raise NonPositiveRate
  else Ok tt.

(** *** PayrollProcessor *)

Record PayrollProcessor : Type := mkPayrollProcessor {
  employees : list Employee
}.

(** The loop [for employee in self.employees: employee.validate()]. *)
Fixpoint validate_all (l : list Employee) : result unit :=
  match l with
  | [] => Ok tt
  | employee :: rest => _ <- validate employee ;; validate_all rest
  end.

(** [PayrollProcessor._validate_employees] *)
Definition _validate_employees (self : PayrollProcessor) : result unit :=
  match employees self with
  | [] => Raise EmptyRoster
  | _ => validate_all (employees self)
  end.

(** [PayrollProcessor.__init__]: the constructed object on success. *)
Definition __init__ (employees : list Employee) : result PayrollProcessor :=
  let self := mkPayrollProcessor employees in
  _ <- _validate_employees self ;;
  Ok self.

(** The dictionary [calculate_payroll] returns, one field per key. *)
Record Payroll : Type := mkPayroll {
  overtime_hours : Decimal;
  overtime_pay : Decimal;
  gross_pay : Decimal;
  tax_amount : Decimal;
  net_pay : Decimal
}.

(** The state a method runs in: the processor object it is called on and
    the log. *)
Record World : Type := mkWorld {
  this : PayrollProcessor;
  log : list LogRecord
}.

Definition M (A : Type) : Type := World -> result A * World.

Definition logger_error (message : string) (w : World) : World :=
  mkWorld (this w) (log w ++ [ERROR message])%list.

(** [try: body  except Exception as e: logger.error(message e); raise] *)
Definition try_log {A} (body : M A) (message : exn -> string) : M A :=
  fun w =>
    match body w with
    | (Raise e, w') => (Raise e, logger_error (message e) w')
    | ok => ok
    end.

(** A computation that touches no state. *)
Definition pure {A} (r : result A) : M A := fun w => (r, w).

(** The body of the [try] block of [calculate_payroll]. *)
Definition calculate_payroll_body (employee : Employee) : result Payroll :=
  gross <-
    (if __gt__ (hours_worked employee) (of_int REGULAR_HOURS) then
       overtime_hours <-
         __sub__ (hours_worked employee) (of_int REGULAR_HOURS) ;;
       rate <- __mul__ (hourly_rate employee) OVERTIME_MULTIPLIER ;;
       overtime_pay <- __mul__ overtime_hours rate ;;
       regular_pay <- __rmul__ (hourly_rate employee) (of_int REGULAR_HOURS) ;;
       gross_pay <- __add__ regular_pay overtime_pay ;;
       Ok (overtime_hours, overtime_pay, gross_pay)
     else
       gross_pay <- __mul__ (hours_worked employee) (hourly_rate employee) ;;
       Ok (dec 0 0, dec 0 0, gross_pay)) ;;
  let '(overtime_hours, overtime_pay, gross_pay) := gross in
  tax_amount <- __mul__ gross_pay TAX_RATE ;;
  net_pay <- __sub__ gross_pay tax_amount ;;
  Ok (mkPayroll overtime_hours overtime_pay gross_pay tax_amount net_pay).

(** [PayrollProcessor.calculate_payroll] *)
Definition calculate_payroll (employee : Employee) : M Payroll :=
  try_log (pure (calculate_payroll_body employee))
    (fun e => "Error calculating payroll for " ++ format_obj (name employee)
              ++ ": " ++ exn_str e).

(** The text appended to [report_lines] for one employee. *)
Definition report_line (employee : Employee) (payroll : Payroll) : string :=
  format_obj (name employee) ++ " worked " ++ __str__ (hours_worked employee)
  ++ " hrs, " ++ "gross $" ++ format_f 2 (gross_pay payroll) ++ ", "
  ++ "net $" ++ format_f 2 (net_pay payroll).

(** The [for] loop of [generate_report], on the locals
    [(report_lines, total_gross, total_net)]. *)
Fixpoint report_loop (l : list Employee)
         (locals : list string * Decimal * Decimal)
  : M (list string * Decimal * Decimal) :=
  match l with
  | [] => pure (Ok locals)
  | employee :: rest =>
      fun w =>
        let '(report_lines, total_gross, total_net) := locals in
        match calculate_payroll employee w with
        | (Raise e, w') => (Raise e, w')
        | (Ok payroll, w') =>
            match __add__ total_gross (gross_pay payroll) with
            | Raise e => (Raise e, w')
            | Ok total_gross =>
                match __add__ total_net (net_pay payroll) with
                | Raise e => (Raise e, w')
                | Ok total_net =>
                    report_loop rest
                      ((report_lines ++ [report_line employee payroll])%list,
                       total_gross, total_net) w'
                end
            end
        end
  end.

Definition header : list string :=
  ["Employee Payroll Report:"; "========================"].

Definition footer (total_gross total_net : Decimal) : list string :=
  ["Total Gross: $" ++ format_f 2 total_gross;
   "Total Net: $" ++ format_f 2 total_net].

(** [PayrollProcessor.generate_report] *)
Definition generate_report : M string :=
  try_log
    (fun w =>
       match report_loop (employees (this w)) (header, dec 0 0, dec 0 0) w with
       | (Raise e, w') => (Raise e, w')
       | (Ok (report_lines, total_gross, total_net), w') =>
           (Ok (join nl (report_lines ++ footer total_gross total_net)%list),
            w')
       end)
    (fun e => "Error generating report: " ++ exn_str e).

(** *** The script *)

(** What a run of the script leaves behind: the text written to standard
    output, and the log. *)
Record Process : Type := mkProcess {
  stdout : string;
  records : list LogRecord
}.

(** [print(text)]; writing to standard output is taken to succeed. *)
Definition print (text : string) (p : Process) : Process :=
  mkProcess (stdout p ++ text ++ nl) (records p).

(** The roster [main] builds. *)
Definition main_employees : list Employee :=
  [mkEmployee (PyStr "John") (dec 40 0) (dec 15 0);
   mkEmployee (PyStr "Jane") (dec 38 0) (dec 17 0);
   mkEmployee (PyStr "Doe") (dec 45 0) (dec 12 0);
   mkEmployee (PyStr "Mark") (dec 50 0) (dec 20 0)].

(** [main]: build the processor, generate the report and print it; any
    exception is logged and raised again. *)
Definition main (p : Process) : result unit * Process :=
  let failed (e : exn) (log : list LogRecord) :=
    (Raise e,
     mkProcess (stdout p)
       (log ++ [ERROR ("Payroll processing failed: " ++ exn_str e)])%list) in
  match __init__ main_employees with
  | Raise e => failed e (records p)
  | Ok processor =>
      match generate_report (mkWorld processor (records p)) with
      | (Raise e, w) => failed e (log w)
      | (Ok report, w) => (Ok tt, print report (mkProcess (stdout p) (log w)))
      end
  end.

End Payroll.

Export Payroll.

(** ** Notions of the specification *)

(** A name that is text and not empty. *)
Definition nonempty_text (o : object) : Prop :=
  exists s, o = PyStr s /\ s <> "".

(** A name that is empty, or not text. *)
Definition empty_or_not_text (o : object) : Prop :=
  o = PyStr "" \/ forall s, o <> PyStr s.

Definition nonempty_textb (o : object) : bool :=
  match o with
  | PyStr s => negb (String.eqb s "")
  | PyOther _ _ => false
  end.

(** The errors of the invalid fields of an employee, in the order name,
    hours worked, hourly rate. *)
Definition invalid_fields (e : Employee) : list exn :=
  ((if nonempty_textb (name e) then [] else [InvalidName])
   ++ (if Qle_bool 0 (value (hours_worked e)) then [] else [NegativeHours])
   ++ (if Qle_bool (value (hourly_rate e)) 0 then [NonPositiveRate]
       else []))%list.




(** The two digits of a number below 100. *)
Definition two_digits (n : N) : string :=
  String (digit_char (n / 10)) (String (digit_char (n mod 10)) "").

(** An amount written with two decimals: a sign, the digits of the whole
    part, a point, and the two digits of the hundredths [cents]. *)
Definition amount (negative : bool) (cents : N) : string :=
  (if negative then "-" else "") ++ str_int (cents / 100) ++ "."
  ++ two_digits (cents mod 100).

(** The breakdowns of a list of employees, in order. *)
Fixpoint payrolls (l : list Employee) : result (list Payroll) :=
  match l with
  | [] => Ok []
  | e :: rest =>
      b <- calculate_payroll_body e ;;
      bs <- payrolls rest ;;
      Ok (b :: bs)
  end.

(** [acc + d1 + d2 + ...], summed from the left as the report loop does. *)
Fixpoint total (acc : Decimal) (ds : list Decimal) : result Decimal :=
  match ds with
  | [] => Ok acc
  | d :: rest => acc' <- __add__ acc d ;; total acc' rest
  end.

(** The line of the report for one employee, as the specification words
    it: name, hours as [str] prints them, gross and net pay with two
    decimals. *)
Definition spec_line (e : Employee) (b : Payroll) : string :=
  format_obj (name e) ++ " worked " ++ __str__ (hours_worked e)
  ++ " hrs, gross $" ++ format_f 2 (gross_pay b)
  ++ ", net $" ++ format_f 2 (net_pay b).

(** The report for employees [emps] with breakdowns [bs] and the two
    totals: two header lines, one line per employee, two footer lines,
    separated by newlines. *)
Definition spec_report (emps : list Employee) (bs : list Payroll)
           (total_gross total_net : Decimal) : string :=
  join nl
    (["Employee Payroll Report:"; "========================"]
     ++ map (fun eb => spec_line (fst eb) (snd eb)) (combine emps bs)
     ++ [("Total Gross: $" ++ format_f 2 total_gross)%string;
         ("Total Net: $" ++ format_f 2 total_net)%string])%list.

(** [needle in text] *)
Definition contains (needle text : string) : bool :=
  match String.index 0 needle text with
  | Some _ => true
  | None => false
  end.

(** ** Further notions *)


(** An amount of at most 7 significant digits with at most two decimals,
    such as 40, 37.5 or 99999.99. *)
Definition cents (d : Decimal) : Prop :=
  ndigits (_int d) <= 7 /\ -2 <= _exp d <= 0.




(** How the loop of [generate_report] over [l], started with the totals
    [tg] and [tn] in the state [w], stops at an overflow in the state
    [w']: the payrolls and the running totals of the employees before some
    employee [e] were computed, and either the payroll of [e] overflowed,
    which [calculate_payroll] logged, or it was computed and adding it to
    a total overflowed, which the loop does not log. *)
Definition stops_at (l : list Employee) (tg tn : Decimal) (w w' : World)
  : Prop :=
  exists pre e post bs tg' tn',
    l = (pre ++ e :: post)%list /\ payrolls pre = Ok bs /\
    total tg (map gross_pay bs) = Ok tg' /\
    total tn (map net_pay bs) = Ok tn' /\
    ((calculate_payroll_body e = Raise Overflow /\
      w' = logger_error ("Error calculating payroll for "
                         ++ format_obj (name e)
                         ++ ": [<class 'decimal.Overflow'>]") w)
     \/ (exists b,
           calculate_payroll_body e = Ok b /\
           (__add__ tg' (gross_pay b) = Raise Overflow \/
            exists g, __add__ tg' (gross_pay b) = Ok g
                      /\ __add__ tn' (net_pay b) = Raise Overflow) /\
           w' = w)).

(** ** Sample data *)

Definition John : Employee := mkEmployee (PyStr "John") (dec 40 0) (dec 15 0).
Definition Jane : Employee := mkEmployee (PyStr "Jane") (dec 45 0) (dec 20 0).

(** An employee with an empty name and negative hours. *)
Definition nameless_negative : Employee :=
  mkEmployee (PyStr "") (dec (-1) 0) (dec 15 0).

(** An employee with a valid name, negative hours and a zero rate. *)
Definition negative_hours : Employee :=
  mkEmployee (PyStr "Ann") (dec (-1) 0) (dec 0 0).

(** The employee of the precision scenario: 40.5 hours at 15.75. *)
Definition John_precise : Employee :=
  mkEmployee (PyStr "John") (dec 405 (-1)) (dec 1575 (-2)).

(** One hour at a rate of 28 significant digits. *)
Definition long_rate : Employee :=
  mkEmployee (PyStr "Max") (dec 1 0) (dec 9999999999999999999999999999 (-27)).


(** A valid employee whose gross pay exceeds the largest exponent. *)
Definition huge_rate : Employee :=
  mkEmployee (PyStr "Eve") (dec 40 0) (dec 1 999999).


(** A fresh processor state: the roster, and an empty log. *)
Definition start (roster : list Employee) : World :=
  mkWorld (mkPayrollProcessor roster) [].

(** ** Sample runs *)

Example str_int_samples :
  str_int 0 = "0" /\ str_int 7 = "7" /\ str_int 10 = "10" /\
  str_int 1550 = "1550" /\
  str_int 12345678901234567890 = "12345678901234567890".
Proof. repeat split; vm_compute; reflexivity. Qed.

Example str_samples :
  __str__ (dec 40 0) = "40" /\ __str__ (dec 400 (-1)) = "40.0" /\
  __str__ (dec 4 1) = "4E+1" /\ __str__ (dec 1 (-6)) = "0.000001" /\
  __str__ (dec 1 (-7)) = "1E-7" /\ __str__ (dec 123 (-8)) = "0.00000123" /\
  __str__ (dec (-15) (-11)) = "-1.5E-10" /\ __str__ (dec 0 3) = "0E+3" /\
  __str__ (dec 405 (-1)) = "40.5".
Proof. repeat split; vm_compute; reflexivity. Qed.

Example format_samples :
  format_f 2 (dec 40 0) = "40.00" /\ format_f 2 (dec 4 1) = "40.00" /\
  format_f 2 (dec 5 (-3)) = "0.00" /\ format_f 2 (dec 15 (-3)) = "0.02" /\
  format_f 2 (dec 25 (-3)) = "0.02" /\ format_f 2 (dec 1005 (-3)) = "1.00" /\
  format_f 2 (dec (-1) (-3)) = "-0.00" /\
  format_f 2 (dec 9995 (-3)) = "10.00" /\
  format_f 2 (dec 49999 (-7)) = "0.00" /\ format_f 2 (dec 1 (-50)) = "0.00" /\
  format_f 2 (dec 6418125 (-4)) = "641.81" /\ format_f 2 (dec 0 0) = "0.00".
Proof. repeat split; vm_compute; reflexivity. Qed.

Example arithmetic_samples :
  __mul__ (dec 9999999999999999999999999999 (-27)) (dec 2 (-1))
    = Ok (dec 2000000000000000000000000000 (-27)) /\
  __mul__ (dec 600 0) (dec 2 (-1)) = Ok (dec 1200 (-1)) /\
  __sub__ (dec 600 0) (dec 1200 (-1)) = Ok (dec 4800 (-1)) /\
  __add__ (dec 0 (-100)) (dec 5 0)
    = Ok (dec 5000000000000000000000000000 (-27)) /\
  __sub__ (dec 1 0) (dec 1 0) = Ok (dec 0 0) /\
  __mul__ (dec 1 999999) (dec 10 0) = Raise Overflow /\
  __mul__ (dec 1 (-999999)) (dec 1 (-30)) = Ok (dec 0 (-1000026)) /\
  __mul__ (dec 123456789 (-1000030)) (dec 1 0) = Ok (dec 12346 (-1000026)).
Proof. repeat split; vm_compute; reflexivity. Qed.

Example scenario_A :
  calculate_payroll_body John
  = Ok (mkPayroll (dec 0 0) (dec 0 0) (dec 600 0) (dec 1200 (-1))
          (dec 4800 (-1))).
Proof. vm_compute. reflexivity. Qed.

Example scenario_B :
  calculate_payroll_body Jane
  = Ok (mkPayroll (dec 5 0) (dec 1500 (-1)) (dec 9500 (-1)) (dec 19000 (-2))
          (dec 76000 (-2))).
Proof. vm_compute. reflexivity. Qed.

(** ** Digits *)

Section Digits.

Lemma digits_fuel_mono fuel : forall n acc,
  (String.length acc <= String.length (digits_fuel fuel n acc))%nat.
Proof.
  induction fuel as [|fuel IH]; intros n acc; simpl.
  - lia.
  - destruct (n <? 10)%N; simpl.
    + lia.
    + specialize (IH (n / 10)%N (String (digit_char (n mod 10)) acc)).
      simpl in IH. lia.
Qed.

Lemma digits_fuel_nonempty fuel n acc :
  (S (String.length acc) <= String.length (digits_fuel (S fuel) n acc))%nat.
Proof.
  simpl. destruct (n <? 10)%N; simpl.
  - lia.
  - pose proof (digits_fuel_mono fuel (n / 10)%N
                  (String (digit_char (n mod 10)) acc)) as H.
    simpl in H. lia.
Qed.

(** With enough fuel, the digit string has at most [k] characters exactly
    when the number is below [10^k]. *)
Lemma digits_fuel_length fuel : forall n acc k,
  (n < 2 ^ N.of_nat fuel)%N -> (1 <= k)%nat ->
  (String.length (digits_fuel fuel n acc) <= k + String.length acc)%nat
  <-> (n < 10 ^ N.of_nat k)%N.
Proof.
  induction fuel as [|fuel IH]; intros n acc k Hn Hk.
  - simpl in *. assert (n = 0%N) by lia. subst n.
    split; intros _; [|lia]. apply N.neq_0_lt_0. apply N.pow_nonzero. lia.
  - assert (Hpow : (10 ^ N.of_nat k = 10 * 10 ^ N.of_nat (k - 1))%N).
    { replace (N.of_nat k) with (N.succ (N.of_nat (k - 1))) by lia.
      rewrite N.pow_succ_r'. reflexivity. }
    assert (Hpos : (0 < 10 ^ N.of_nat (k - 1))%N).
    { apply N.neq_0_lt_0. apply N.pow_nonzero. lia. }
    cbn [digits_fuel]. destruct (N.ltb_spec n 10) as [Hlt|Hge].
    + simpl. split; intros _; [|lia]. rewrite Hpow. lia.
    + assert (Hdiv : (n / 10 < 2 ^ N.of_nat fuel)%N).
      { apply N.Div0.div_lt_upper_bound.
        rewrite Nat2N.inj_succ, N.pow_succ_r' in Hn. lia. }
      destruct (Nat.eq_dec k 1) as [->|Hk1].
      * split; [|intros H; simpl in H; lia].
        intros H. exfalso.
        destruct fuel as [|fuel'].
        { simpl in Hdiv. assert (n / 10 = 0)%N by lia.
          assert (n < 10)%N; [|lia].
          apply N.div_small_iff; lia. }
        pose proof (digits_fuel_nonempty fuel' (n / 10)%N
                      (String (digit_char (n mod 10)) acc)) as Hne.
        simpl in Hne, H. lia.
      * specialize (IH (n / 10)%N (String (digit_char (n mod 10)) acc)
                       (k - 1)%nat Hdiv ltac:(lia)).
        simpl String.length in IH. rewrite Hpow.
        split; intros H.
        -- assert (n / 10 < 10 ^ N.of_nat (k - 1))%N as Hq by (apply IH; lia).
           pose proof (N.div_mod n 10 ltac:(lia)).
           pose proof (N.mod_lt n 10 ltac:(lia)). nia.
        -- assert (n / 10 < 10 ^ N.of_nat (k - 1))%N as Hq.
           { apply N.Div0.div_lt_upper_bound. lia. }
           apply IH in Hq. lia.
Qed.

Lemma str_int_fuel n : (n < 2 ^ N.of_nat (S (N.to_nat (N.log2 n))))%N.
Proof.
  rewrite Nat2N.inj_succ, N2Nat.id.
  destruct (N.eq_dec n 0) as [->|Hn]; [reflexivity|].
  apply N.log2_spec. lia.
Qed.

(** [len(str(n)) <= k] exactly when [n < 10^k]. *)
Lemma ndigits_le n k :
  1 <= k -> (ndigits n <= k <-> (n < 10 ^ Z.to_N k)%N).
Proof.
  intros Hk. unfold ndigits, str_int.
  pose proof (digits_fuel_length _ n "" (Z.to_nat k) (str_int_fuel n)
                ltac:(lia)) as H.
  change (String.length "") with 0%nat in H. rewrite Nat.add_0_r in H.
  replace (N.of_nat (Z.to_nat k)) with (Z.to_N k) in H by lia.
  rewrite <- H. lia.
Qed.

Lemma ndigits_pos n : 1 <= ndigits n.
Proof.
  unfold ndigits, str_int.
  pose proof (digits_fuel_nonempty (N.to_nat (N.log2 n)) n "") as H.
  change (String.length "") with 0%nat in H. lia.
Qed.

End Digits.

(** ** Text *)

Section Text.

Lemma append_nil_r s : s ++ "" = s.
Proof. induction s as [|c s IH]; simpl; [reflexivity|now rewrite IH]. Qed.

Lemma append_assoc s1 s2 s3 : (s1 ++ s2) ++ s3 = s1 ++ (s2 ++ s3).
Proof. induction s1 as [|c s1 IH]; simpl; [reflexivity|now rewrite IH]. Qed.

Lemma length_append s1 s2 :
  String.length (s1 ++ s2) = (String.length s1 + String.length s2)%nat.
Proof. induction s1 as [|c s1 IH]; simpl; [reflexivity|now rewrite IH]. Qed.

Lemma substring_all s : substring 0 (String.length s) s = s.
Proof. induction s as [|c s IH]; simpl; [reflexivity|now rewrite IH]. Qed.

Lemma substring_prefix s1 s2 : substring 0 (String.length s1) (s1 ++ s2) = s1.
Proof.
  induction s1 as [|c s1 IH]; simpl.
  - now destruct s2.
  - now rewrite IH.
Qed.

Lemma substring_suffix s1 s2 :
  substring (String.length s1) (String.length s2) (s1 ++ s2) = s2.
Proof.
  induction s1 as [|c s1 IH]; simpl; [apply substring_all|exact IH].
Qed.

(** The accumulator of [digits_fuel] is a suffix of its result. *)
Lemma digits_fuel_acc fuel : forall n acc,
  digits_fuel fuel n acc = digits_fuel fuel n "" ++ acc.
Proof.
  induction fuel as [|fuel IH]; intros n acc; simpl; [reflexivity|].
  destruct (n <? 10)%N; [reflexivity|].
  rewrite (IH _ (String _ acc)), (IH _ (String _ "")).
  now rewrite append_assoc.
Qed.

(** Fuel beyond what the number needs changes nothing. *)
Lemma digits_fuel_enough fuel : forall fuel' n acc,
  (n < 2 ^ N.of_nat fuel)%N -> (n < 2 ^ N.of_nat fuel')%N ->
  (1 <= fuel)%nat -> (1 <= fuel')%nat ->
  digits_fuel fuel n acc = digits_fuel fuel' n acc.
Proof.
  induction fuel as [|fuel IH]; intros fuel' n acc Hn Hn' Hf Hf'; [lia|].
  destruct fuel' as [|fuel']; [lia|].
  cbn [digits_fuel]. destruct (N.ltb_spec n 10) as [|Hge]; [reflexivity|].
  rewrite Nat2N.inj_succ, N.pow_succ_r' in Hn, Hn'.
  assert (forall k, (n < 2 * 2 ^ N.of_nat k)%N -> (1 <= k)%nat) as Hk.
  { intros [|k] Hk; [simpl in Hk|]; lia. }
  apply IH; auto; apply N.Div0.div_lt_upper_bound; lia.
Qed.

(** [str_int] writes one digit below 10 and, from 10 on, the digits of the
    tenth followed by the last digit. *)
Lemma str_int_small n : (n < 10)%N -> str_int n = String (digit_char n) "".
Proof.
  intros H. unfold str_int. cbn [digits_fuel].
  destruct (N.ltb_spec n 10); [|lia]. now rewrite N.mod_small.
Qed.

Lemma str_int_step n :
  (10 <= n)%N ->
  str_int n = str_int (n / 10) ++ String (digit_char (n mod 10)) "".
Proof.
  intros H. unfold str_int at 1. cbn [digits_fuel].
  destruct (N.ltb_spec n 10); [lia|].
  rewrite digits_fuel_acc. f_equal.
  pose proof (str_int_fuel n) as Hn.
  destruct (N.to_nat (N.log2 n)) as [|k].
  - simpl in Hn. lia.
  - unfold str_int. apply digits_fuel_enough; try lia.
    + apply N.Div0.div_lt_upper_bound.
      rewrite Nat2N.inj_succ, N.pow_succ_r' in Hn. lia.
    + apply str_int_fuel.
Qed.

Lemma two_digit_facts c :
  ((c / 10) mod 10 = (c mod 100) / 10 /\ c mod 10 = (c mod 100) mod 10)%N.
Proof.
  pose proof (N.div_mod c 100 ltac:(lia)) as H1.
  pose proof (N.mod_lt c 100 ltac:(lia)) as H2.
  pose proof (N.div_mod (c mod 100) 10 ltac:(lia)) as H3.
  pose proof (N.mod_lt (c mod 100) 10 ltac:(lia)) as H4.
  assert (c mod 100 / 10 < 10)%N as H5.
  { apply N.Div0.div_lt_upper_bound. lia. }
  assert (c / 10 = 10 * (c / 100) + c mod 100 / 10)%N as H6.
  { symmetry. apply (N.div_unique c 10 _ ((c mod 100) mod 10)); lia. }
  split.
  - symmetry. apply (N.mod_unique _ _ (c / 100)); lia.
  - symmetry. apply (N.mod_unique _ _ (c / 10)); lia.
Qed.

Lemma str_int_hundreds c :
  (100 <= c)%N -> str_int c = str_int (c / 100) ++ two_digits (c mod 100).
Proof.
  intros H. rewrite (str_int_step c) by lia.
  assert (10 <= c / 10)%N as H10.
  { apply N.div_le_lower_bound; lia. }
  rewrite (str_int_step (c / 10)) by exact H10.
  rewrite N.Div0.div_div. change (10 * 10)%N with 100%N.
  rewrite append_assoc. unfold two_digits.
  destruct (two_digit_facts c) as [-> ->]. reflexivity.
Qed.

Lemma _rescale_exp d exp : _exp (_rescale d exp) = exp.
Proof.
  unfold _rescale. destruct (_int d =? 0)%N; [reflexivity|].
  destruct (exp <=? _exp d); [reflexivity|].
  now destruct (round_half_even _ _).
Qed.

Lemma _rescale_sign d exp : _sign (_rescale d exp) = _sign d.
Proof.
  unfold _rescale. destruct (_int d =? 0)%N; [reflexivity|].
  destruct (exp <=? _exp d); [reflexivity|].
  now destruct (round_half_even _ _).
Qed.

(** [format(d, ".2f")] writes the sign of [d] and the hundredths that
    [_rescale] leaves, with exactly two decimals. *)
Lemma format_f_2 d :
  format_f 2 d = amount (_sign d) (_int (_rescale d (-2))).
Proof.
  unfold format_f, amount. change (- Z.of_nat 2) with (-2).
  rewrite _rescale_exp, _rescale_sign.
  set (c := _int (_rescale d (-2))). f_equal.
  destruct (N.ltb_spec c 100) as [Hlt|Hge].
  - rewrite (N.div_small c 100), (N.mod_small c 100) by lia.
    destruct (N.ltb_spec c 10) as [Hlt'|Hge'].
    + rewrite (str_int_small c) by lia.
      unfold two_digits. rewrite N.div_small, N.mod_small by lia.
      reflexivity.
    + rewrite (str_int_step c) by lia.
      rewrite (str_int_small (c / 10))
        by (apply N.Div0.div_lt_upper_bound; lia).
      reflexivity.
  - rewrite (str_int_hundreds c Hge).
    set (ip := str_int (c / 100)). set (fp := two_digits (c mod 100)).
    rewrite length_append. change (String.length fp) with 2%nat.
    assert (1 <= String.length ip)%nat as Hip.
    { pose proof (ndigits_pos (c / 100)) as H. unfold ndigits in H.
      fold ip in H. lia. }
    destruct (Z.ltb_spec (-2 + Z.of_nat (String.length ip + 2)) 0); [lia|].
    destruct (Z.eqb_spec (-2 + Z.of_nat (String.length ip + 2)) 0); [lia|].
    unfold slice.
    replace (Z.to_nat (-2 + Z.of_nat (String.length ip + 2) - 0))
      with (String.length ip) by lia.
    replace (Z.to_nat (-2 + Z.of_nat (String.length ip + 2)))
      with (String.length ip) by lia.
    replace (Z.to_nat (Z.of_nat (String.length ip + 2)
                       - (-2 + Z.of_nat (String.length ip + 2))))
      with (String.length fp) by (change (String.length fp) with 2%nat; lia).
    change (Z.to_nat 0) with 0%nat.
    rewrite substring_prefix, substring_suffix. reflexivity.
Qed.


End Text.

(** ** Values and comparison *)

Section Values.

Local Open Scope Q_scope.

Lemma ten_neq_0 : ~ inject_Z 10 == 0.
Proof. discriminate. Qed.

Lemma ten_pow_pos z : 0 < inject_Z 10 ^ z.
Proof. apply Qpower_0_lt. reflexivity. Qed.

Lemma aligned_value d exp :
  (exp <= _exp d)%Z -> inject_Z (aligned d exp) * inject_Z 10 ^ exp == value d.
Proof.
  intros H. unfold aligned, value.
  rewrite inject_Z_mult, Zpower_Qpower by lia.
  rewrite <- Qmult_assoc, <- Qpower_plus by apply ten_neq_0.
  replace (_exp d - exp + exp)%Z with (_exp d) by lia. reflexivity.
Qed.

Lemma Qcompare_inject_Z x y : (inject_Z x ?= inject_Z y) = (x ?= y)%Z.
Proof. unfold Qcompare. simpl. now rewrite !Z.mul_1_r. Qed.

Lemma Qcompare_mult_r x y p : 0 < p -> (x * p ?= y * p) = (x ?= y).
Proof.
  intros Hp. destruct (Qcompare_spec x y) as [H|H|H].
  - apply Qeq_alt. now rewrite H.
  - apply Qlt_alt. now apply Qmult_lt_r.
  - apply Qgt_alt. now apply Qmult_lt_r.
Qed.

(** [_cmp] compares the values. *)
Lemma _cmp_value a b : _cmp a b = (value a ?= value b).
Proof.
  unfold _cmp. set (exp := Z.min (_exp a) (_exp b)).
  rewrite <- (aligned_value a exp), <- (aligned_value b exp) by lia.
  rewrite Qcompare_mult_r by apply ten_pow_pos.
  now rewrite Qcompare_inject_Z.
Qed.

Lemma value_of_int_0 : value (of_int 0) == 0.
Proof. reflexivity. Qed.

Lemma _cmp_0 d : (value d ?= value (of_int 0)) = (value d ?= 0).
Proof. apply Qcompare_comp; [reflexivity | apply value_of_int_0]. Qed.

Lemma __lt__0 d : __lt__ d (of_int 0) = true <-> value d < 0.
Proof.
  unfold __lt__. rewrite _cmp_value, Qlt_alt, _cmp_0.
  destruct (value d ?= 0); split; intros H; congruence.
Qed.

Lemma __le__0 d : __le__ d (of_int 0) = true <-> value d <= 0.
Proof.
  unfold __le__. rewrite _cmp_value, Qle_alt, _cmp_0.
  destruct (value d ?= 0); split; intros H; congruence.
Qed.

Lemma __gt__value a b : __gt__ a b = true <-> value b < value a.
Proof.
  unfold __gt__. rewrite _cmp_value, Qgt_alt.
  destruct (value a ?= value b); split; intros H; congruence.
Qed.

Lemma __eq__value a b : __eq__ a b = true <-> value a == value b.
Proof.
  unfold __eq__. rewrite _cmp_value, Qeq_alt.
  destruct (value a ?= value b); split; intros H; congruence.
Qed.

End Values.

(** ** Rounding to hundredths *)

Section Hundredths.

Local Open Scope Q_scope.

(** [ROUND_HALF_EVEN] moves the kept digits by at most half a unit. *)
Lemma round_half_even_error c k :
  (1 <= k)%Z ->
  let p := (10 ^ k)%Z in
  let c' := Z.of_N (if fst (round_half_even c k)
                    then snd (round_half_even c k) + 1
                    else snd (round_half_even c k)) in
  (2 * Z.abs (c' * p - Z.of_N c) <= p)%Z.
Proof.
  intros Hk p c'. unfold round_half_even in c'. cbn [fst snd] in c'.
  assert (Z.of_N (10 ^ Z.to_N k) = p) as Hp.
  { unfold p. rewrite N2Z.inj_pow. f_equal. lia. }
  assert (0 < p)%Z as Hpos by (apply Z.pow_pos_nonneg; lia).
  set (pn := (10 ^ Z.to_N k)%N) in *.
  pose proof (N.div_mod c pn ltac:(lia)) as Hdm.
  pose proof (N.mod_lt c pn ltac:(lia)) as Hlt.
  set (q := (c / pn)%N) in *. set (r := (c mod pn)%N) in *.
  assert (Z.of_N c = Z.of_N q * p + Z.of_N r)%Z as Hc by nia.
  unfold c'. destruct (N.compare_spec (2 * r) pn) as [He|Hl|Hg].
  - destruct (N.odd q); nia.
  - nia.
  - nia.
Qed.

Lemma value_zero s e : value (mkDecimal s 0 e) == 0.
Proof. unfold value, signed; simpl. destruct s; simpl; ring. Qed.



End Hundredths.

(** ** Rounding to the context *)

Ltac context_lia := unfold Etop, Etiny, Emax, Emin, prec in *; lia.

Section Fix.

Lemma ndigits_le_prec n : ndigits n <= prec <-> (n < 10 ^ 28)%N.
Proof. apply (ndigits_le n 28). lia. Qed.


(** The exponent of a result of [_fix] lies within the context's range. *)
Lemma _fix_exp_range d d' : _fix d = Ok d' -> Etiny <= _exp d' <= Emax.
Proof.
  destruct d as [s c e]. unfold _fix. cbn [_sign _int _exp].
  pose proof (ndigits_pos c) as Hpos.
  destruct (N.eqb_spec c 0) as [H0|H0].
  { intros [= <-]. simpl. context_lia. }
  destruct (Z.ltb_spec Etop (ndigits c + e - prec)) as [|Hov];
    [discriminate|].
  set (exp_min := Z.max (ndigits c + e - prec) Etiny).
  destruct (Z.ltb_spec e exp_min) as [Hr|Hr].
  - destruct (round_half_even c (exp_min - e)) as [up q].
    set (coeff := if up then (q + 1)%N else q).
    set (carry := up && (prec <? ndigits coeff)).
    destruct (Z.ltb_spec Etop (if carry then exp_min + 1 else exp_min));
      [discriminate|].
    intros [= <-]. simpl. unfold exp_min in *. destruct carry; context_lia.
  - intros [= <-]. simpl. unfold exp_min in *. context_lia.
Qed.

(** When [_fix] returns and the coefficient has at most [prec] digits at
    an exponent within the range, nothing was rounded. *)
Lemma _fix_Ok_exact d d' :
  _fix d = Ok d' -> ndigits (_int d) <= prec -> Etiny <= _exp d <= Emax ->
  d' = d.
Proof.
  destruct d as [s c e]. cbn [_sign _int _exp]. intros H Hd He.
  unfold _fix in H. cbn [_sign _int _exp] in H.
  destruct (N.eqb_spec c 0) as [H0|H0].
  - injection H as <-. subst c. do 2 f_equal. context_lia.
  - destruct (Z.ltb_spec Etop (ndigits c + e - prec)); [discriminate|].
    destruct (Z.ltb_spec e (Z.max (ndigits c + e - prec) Etiny));
      [context_lia|].
    now injection H.
Qed.

End Fix.

(** ** Exact operations *)

Section Exact.

Local Open Scope Q_scope.

Lemma signed_mul s1 s2 (c1 c2 : N) e :
  signed (mkDecimal (xorb s1 s2) (c1 * c2) e)
  = (signed (mkDecimal s1 c1 0) * signed (mkDecimal s2 c2 0))%Z.
Proof. unfold signed; simpl. destruct s1, s2; simpl; lia. Qed.

(** The unrounded product denotes the product of the values. *)
Lemma value_mul a b :
  value (mkDecimal (xorb (_sign a) (_sign b)) (_int a * _int b)
                   (_exp a + _exp b))
  == value a * value b.
Proof.
  unfold value. rewrite signed_mul. simpl _exp.
  rewrite inject_Z_mult, Qpower_plus by apply ten_neq_0.
  change (signed (mkDecimal (_sign a) (_int a) 0)) with (signed a).
  change (signed (mkDecimal (_sign b) (_int b) 0)) with (signed b).
  ring.
Qed.




End Exact.

(** ** Operations that do not round *)

Section Bounded.

Local Open Scope Q_scope.

Lemma ndigits_le_Z n k :
  (1 <= k)%Z -> (ndigits n <= k)%Z <-> (Z.of_N n < 10 ^ k)%Z.
Proof.
  intros Hk. rewrite (ndigits_le n k Hk).
  replace (10 ^ k)%Z with (Z.of_N (10 ^ Z.to_N k)).
  - lia.
  - rewrite N2Z.inj_pow. f_equal. lia.
Qed.




End Bounded.

(** ** Validation *)

Section Validation.

Local Open Scope Q_scope.

Lemma truth_isinstance o :
  negb (truth o) || negb (isinstance_str o) = negb (nonempty_textb o).
Proof.
  destruct o as [s|t shown]; simpl;
    [destruct (s =? "")%string|destruct t]; reflexivity.
Qed.

Lemma nonempty_textb_spec o : nonempty_textb o = true <-> nonempty_text o.
Proof.
  unfold nonempty_text. destruct o as [s|t shown]; simpl.
  - destruct (String.eqb_spec s "") as [->|Hs]; simpl; split.
    + discriminate.
    + intros (s' & [= <-] & H). now elim H.
    + intros _. now exists s.
    + reflexivity.
  - split; [discriminate|]. intros (s & H & _). discriminate.
Qed.

Lemma empty_or_not_text_iff o : empty_or_not_text o <-> ~ nonempty_text o.
Proof.
  unfold empty_or_not_text, nonempty_text. destruct o as [s|t shown].
  - destruct (String.eqb_spec s "") as [->|Hs].
    + split; [|now left]. intros _ (s' & [= <-] & H). now elim H.
    + split.
      * intros [[= ->]|H]; [now elim Hs|now elim (H s)].
      * intros H. elim H. now exists s.
  - split.
    + intros _ (s & H & _). discriminate H.
    + intros _. right. discriminate.
Qed.

(** The four outcomes of [validate], each with the inputs that lead to it. *)
Lemma validate_cases e :
  match validate e with
  | Ok _ =>
      nonempty_text (name e) /\ 0 <= value (hours_worked e)
      /\ 0 < value (hourly_rate e)
  | Raise x =>
      (x = InvalidName /\ ~ nonempty_text (name e))
      \/ (x = NegativeHours /\ nonempty_text (name e)
          /\ value (hours_worked e) < 0)
      \/ (x = NonPositiveRate /\ nonempty_text (name e)
          /\ 0 <= value (hours_worked e) /\ value (hourly_rate e) <= 0)
  end.
Proof.
  unfold validate. rewrite truth_isinstance.
  destruct (nonempty_textb (name e)) eqn:Hn; simpl.
  2:{ left. split; [reflexivity|]. rewrite <- nonempty_textb_spec. congruence. }
  apply nonempty_textb_spec in Hn.
  destruct (__lt__ (hours_worked e) (of_int 0)) eqn:Hh.
  { right; left. apply __lt__0 in Hh. auto. }
  assert (0 <= value (hours_worked e)) as Hh'.
  { apply Qnot_lt_le. rewrite <- __lt__0. congruence. }
  destruct (__le__ (hourly_rate e) (of_int 0)) eqn:Hr.
  { right; right. apply __le__0 in Hr. auto. }
  repeat split; auto.
  apply Qnot_le_lt. rewrite <- __le__0. congruence.
Qed.

Lemma validate_Ok e :
  validate e = Ok tt <->
  nonempty_text (name e) /\ 0 <= value (hours_worked e)
  /\ 0 < value (hourly_rate e).
Proof.
  pose proof (validate_cases e) as H. split.
  - intros E. now rewrite E in H.
  - intros (Hn & Hh & Hr). destruct (validate e) as [[]|x]; [reflexivity|].
    destruct H as [(_ & H)|[(_ & _ & H)|(_ & _ & _ & H)]].
    + contradiction.
    + now apply Qlt_not_le in H.
    + now apply Qle_not_lt in H.
Qed.

(** C5 (as amended).  [validate] fails with [InvalidName] exactly when the
    name is empty or not text; with [NegativeHours] exactly when the name
    is a non-empty text and the hours are negative; with
    [NonPositiveRate] exactly when the name is a non-empty text, the hours
    are not negative and the rate is zero or negative; and it succeeds
    exactly for a non-empty text name, hours >= 0 and rate > 0. *)
Theorem validate_outcome e :
  (validate e = Raise InvalidName <-> empty_or_not_text (name e)) /\
  (validate e = Raise NegativeHours <->
     nonempty_text (name e) /\ value (hours_worked e) < 0) /\
  (validate e = Raise NonPositiveRate <->
     nonempty_text (name e) /\ 0 <= value (hours_worked e)
     /\ value (hourly_rate e) <= 0) /\
  (validate e = Ok tt <->
     nonempty_text (name e) /\ 0 <= value (hours_worked e)
     /\ 0 < value (hourly_rate e)).
Proof.
  pose proof (validate_cases e) as H. rewrite empty_or_not_text_iff.
  split; [|split; [|split; [|apply validate_Ok]]]; split.
  - intros E. rewrite E in H.
    destruct H as [(_ & H)|[(E' & _)|(E' & _)]];
      [exact H|discriminate E'|discriminate E'].
  - intros Hn. destruct (validate e) as [[]|x].
    + now destruct H.
    + destruct H as [(-> & _)|[(_ & H & _)|(_ & H & _)]];
        [reflexivity|contradiction|contradiction].
  - intros E. rewrite E in H.
    destruct H as [(E' & _)|[(_ & H)|(E' & _)]];
      [discriminate E'|exact H|discriminate E'].
  - intros (Hn & Hh). destruct (validate e) as [[]|x].
    + destruct H as (_ & H & _). now apply Qlt_not_le in Hh.
    + destruct H as [(_ & H)|[(-> & _)|(_ & _ & H & _)]];
        [contradiction|reflexivity|now apply Qlt_not_le in Hh].
  - intros E. rewrite E in H.
    destruct H as [(E' & _)|[(E' & _)|(_ & H)]];
      [discriminate E'|discriminate E'|exact H].
  - intros (Hn & Hh & Hr). destruct (validate e) as [[]|x].
    + destruct H as (_ & _ & H). now apply Qle_not_lt in Hr.
    + destruct H as [(_ & H)|[(_ & _ & H)|(-> & _)]];
        [contradiction|now apply Qlt_not_le in H|reflexivity].
Qed.

(** C5, counterexample.  An employee with an empty name and -1 hours has
    negative hours, yet [validate] does not fail with [NegativeHours]: it
    fails with [InvalidName]. *)
Lemma validate_negative_hours_not_exact :
  ~ (validate nameless_negative = Raise NegativeHours
     <-> value (hours_worked nameless_negative) < 0).
Proof.
  intros [_ H]. assert (value (hours_worked nameless_negative) < 0) as Hneg
    by reflexivity.
  apply H in Hneg. discriminate Hneg.
Qed.

(** C10.  [validate] reports the first invalid field in the order name,
    hours worked, hourly rate, whatever the later fields hold. *)
Theorem validate_first_invalid_field e :
  validate e = match invalid_fields e with
               | [] => Ok tt
               | x :: _ => Raise x
               end.
Proof.
  unfold validate, invalid_fields. rewrite truth_isinstance.
  destruct (nonempty_textb (name e)); simpl; [|reflexivity].
  destruct (__lt__ (hours_worked e) (of_int 0)) eqn:Hh.
  - apply __lt__0 in Hh. apply Qlt_not_le in Hh.
    rewrite <- Qle_bool_iff in Hh.
    destruct (Qle_bool 0 (value (hours_worked e))); [now elim Hh|reflexivity].
  - assert (Qle_bool 0 (value (hours_worked e)) = true) as ->.
    { apply Qle_bool_iff, Qnot_lt_le. rewrite <- __lt__0. congruence. }
    simpl. destruct (__le__ (hourly_rate e) (of_int 0)) eqn:Hr.
    + apply __le__0, Qle_bool_iff in Hr. now rewrite Hr.
    + destruct (Qle_bool (value (hourly_rate e)) 0) eqn:Hr'; [|reflexivity].
      apply Qle_bool_iff, __le__0 in Hr'. congruence.
Qed.

Example validate_precedence_samples :
  validate nameless_negative = Raise InvalidName /\
  validate negative_hours = Raise NegativeHours.
Proof. split; reflexivity. Qed.

(** *** Construction *)

Lemma validate_all_app pre l :
  Forall (fun e => validate e = Ok tt) pre ->
  validate_all (pre ++ l) = validate_all l.
Proof.
  induction 1 as [|e pre He _ IH]; simpl; [reflexivity|].
  now rewrite He.
Qed.

(** C4.  Constructing a processor from an empty list raises the
    [ValueError] for an empty roster, and yields no processor. *)
Theorem init_empty :
  __init__ [] = Raise EmptyRoster /\ forall p, __init__ [] <> Ok p.
Proof. split; [reflexivity|discriminate]. Qed.

(** C6.  When the employees before [e] all validate and [e] does not,
    construction raises the error of [e], whatever follows [e]. *)
Theorem init_first_invalid pre e post x :
  Forall (fun e' => validate e' = Ok tt) pre ->
  validate e = Raise x ->
  __init__ (pre ++ e :: post) = Raise x.
Proof.
  intros Hpre He. unfold __init__, _validate_employees. simpl employees.
  rewrite (validate_all_app pre (e :: post) Hpre). simpl. rewrite He. simpl.
  destruct (pre ++ e :: post)%list eqn:E; [|reflexivity].
  now destruct pre.
Qed.

Lemma init_first_invalid_witness :
  Forall (fun e' => validate e' = Ok tt) [John] /\
  validate negative_hours = Raise NegativeHours /\
  validate nameless_negative = Raise InvalidName /\
  __init__ ([John] ++ negative_hours :: [nameless_negative])
  = Raise NegativeHours.
Proof.
  assert (Forall (fun e' => validate e' = Ok tt) [John]) as Hpre
    by (repeat constructor).
  assert (validate negative_hours = Raise NegativeHours) as He
    by (vm_compute; reflexivity).
  split; [exact Hpre|]. split; [exact He|]. split; [vm_compute; reflexivity|].
  exact (init_first_invalid [John] negative_hours [nameless_negative] _
           Hpre He).
Defined.

(** Construction succeeds exactly on a non-empty list of valid employees,
    and stores that list. *)
Lemma init_Ok l p :
  __init__ l = Ok p <->
  l <> [] /\ Forall (fun e => validate e = Ok tt) l /\ p = mkPayrollProcessor l.
Proof.
  unfold __init__, _validate_employees. simpl employees.
  destruct l as [|e l]; [split; [discriminate|intros ([] & _); reflexivity]|].
  assert (forall l', validate_all l' = Ok tt
                     <-> Forall (fun e => validate e = Ok tt) l') as Hall.
  { induction l' as [|a l' IH]; simpl.
    - split; auto.
    - destruct (validate a) as [[]|x] eqn:Ha; simpl.
      + rewrite IH. split; [now constructor|now inversion 1].
      + split; [discriminate|]. inversion 1. congruence. }
  destruct (validate_all (e :: l)) as [[]|x] eqn:E; simpl.
  - apply Hall in E. split.
    + intros [= <-]. repeat split; [discriminate|assumption].
    + now intros (_ & _ & ->).
  - split; [discriminate|]. intros (_ & H & _). apply Hall in H. congruence.
Qed.

End Validation.

(** ** Payroll calculation *)

Section Calculation.

Local Open Scope Q_scope.

Lemma value_REGULAR_HOURS : value (of_int REGULAR_HOURS) == 40.
Proof. reflexivity. Qed.

Lemma gt_REGULAR_HOURS d :
  __gt__ d (of_int REGULAR_HOURS) = true <-> 40 < value d.
Proof. rewrite __gt__value. now rewrite value_REGULAR_HOURS. Qed.

(** [calculate_payroll] returns what the body of its [try] block returns,
    and logs exactly when that body raises. *)
Lemma calculate_payroll_run e w :
  calculate_payroll e w =
  match calculate_payroll_body e with
  | Ok b => (Ok b, w)
  | Raise x =>
      (Raise x,
       logger_error ("Error calculating payroll for "
                     ++ format_obj (name e) ++ ": " ++ exn_str x) w)
  end.
Proof.
  unfold calculate_payroll, try_log, pure.
  now destruct (calculate_payroll_body e).
Qed.

Lemma calculate_payroll_Ok e w b w' :
  calculate_payroll e w = (Ok b, w') ->
  calculate_payroll_body e = Ok b /\ w' = w.
Proof.
  rewrite calculate_payroll_run.
  destruct (calculate_payroll_body e); now intros [= <- <-].
Qed.

End Calculation.

(** ** Tax and net pay *)

Section TaxAndNet.

Local Open Scope Q_scope.

Lemma value_TAX_RATE : value TAX_RATE == 2 # 10.
Proof. reflexivity. Qed.

(** The last two steps of [calculate_payroll], and where the gross pay
    comes from. *)
Lemma calculate_payroll_body_tail e b :
  calculate_payroll_body e = Ok b ->
  __mul__ (gross_pay b) TAX_RATE = Ok (tax_amount b) /\
  __sub__ (gross_pay b) (tax_amount b) = Ok (net_pay b) /\
  exists d, _fix d = Ok (gross_pay b).
Proof.
  unfold calculate_payroll_body.
  destruct (__gt__ (hours_worked e) (of_int REGULAR_HOURS)).
  - destruct (__sub__ _ _) as [oh|]; [simpl|discriminate].
    destruct (__mul__ (hourly_rate e) _) as [r|]; [simpl|discriminate].
    destruct (__mul__ oh r) as [op|]; [simpl|discriminate].
    destruct (__rmul__ _ _) as [reg|]; [simpl|discriminate].
    destruct (__add__ reg op) as [g|] eqn:Eg; [simpl|discriminate].
    destruct (__mul__ g TAX_RATE) as [t|] eqn:Et; [simpl|discriminate].
    destruct (__sub__ g t) as [n|] eqn:En; [simpl|discriminate].
    intros [= <-]. simpl. repeat split; auto. eexists. exact Eg.
  - destruct (__mul__ (hours_worked e) _) as [g|] eqn:Eg; [simpl|discriminate].
    destruct (__mul__ g TAX_RATE) as [t|] eqn:Et; [simpl|discriminate].
    destruct (__sub__ g t) as [n|] eqn:En; [simpl|discriminate].
    intros [= <-]. simpl. repeat split; auto. eexists. exact Eg.
Qed.

(** For a gross pay of at most 27 digits above the smallest exponent,
    tax and net pay are not rounded. *)
Lemma tax_net_exact g t n :
  __mul__ g TAX_RATE = Ok t -> __sub__ g t = Ok n ->
  (ndigits (_int g) <= 27)%Z -> (Etiny < _exp g <= Emax)%Z ->
  t = mkDecimal (_sign g) (_int g * 2) (_exp g - 1)
  /\ n = mkDecimal (_sign g && negb (_int g =? 0)%N) (_int g * 8) (_exp g - 1).
Proof.
  destruct g as [s c e]. cbn [_sign _int _exp]. intros Ht Hn Hd He.
  apply (ndigits_le c 27) in Hd; [|lia].
  change (10 ^ Z.to_N 27)%N with 1000000000000000000000000000%N in Hd.
  assert (t = mkDecimal s (c * 2) (e - 1)) as ->.
  { unfold __mul__, TAX_RATE, dec in Ht. cbn [_sign _int _exp] in Ht.
    apply _fix_Ok_exact in Ht; cbn [_sign _int _exp].
    - subst t. now rewrite xorb_false_r.
    - apply ndigits_le_prec. change (Z.to_N (Z.abs 2)) with 2%N.
      change (10 ^ 28)%N with 10000000000000000000000000000%N. lia.
    - context_lia. }
  split; [reflexivity|].
  unfold __sub__, __add__, copy_negate, aligned, signed in Hn.
  cbn [_sign _int _exp] in Hn.
  replace (Z.min e (e - 1)) with (e - 1)%Z in Hn by lia.
  replace (e - (e - 1))%Z with 1%Z in Hn by lia.
  replace (e - 1 - (e - 1))%Z with 0%Z in Hn by lia.
  change (10 ^ 1)%Z with 10%Z in Hn. change (10 ^ 0)%Z with 1%Z in Hn.
  apply _fix_Ok_exact in Hn; cbn [_sign _int _exp].
  - subst n. destruct s; cbn [negb andb].
    + f_equal; [|lia].
      destruct (N.eqb_spec c 0) as [->|Hc]; [reflexivity|].
      simpl. destruct (Z.eqb_spec (- Z.of_N c * 10 + Z.of_N (c * 2) * 1) 0);
        [lia|]. apply Z.ltb_lt. lia.
    + f_equal; [|lia].
      destruct (Z.eqb_spec (Z.of_N c * 10 + - Z.of_N (c * 2) * 1) 0);
        [reflexivity|]. apply Z.ltb_ge. lia.
  - apply ndigits_le_prec.
    change (10 ^ 28)%N with 10000000000000000000000000000%N.
    destruct s; cbn [negb]; lia.
  - context_lia.
Qed.

(** C2 (as amended).  Whenever [calculate_payroll] returns a breakdown,
    the tax amount is [gross_pay * Decimal('0.2')] and the net pay is
    [gross_pay - tax_amount] in the arithmetic of [Decimal], each rounded
    half-even to the 28 significant digits of the context and never to two
    decimals; and for a gross pay of at most 27 significant digits, above
    the smallest exponent of the context, the two equalities hold between
    the exact values. *)
Theorem calculate_payroll_tax_net e w b w' :
  calculate_payroll e w = (Ok b, w') ->
  __mul__ (gross_pay b) (dec 2 (-1)) = Ok (tax_amount b) /\
  __sub__ (gross_pay b) (tax_amount b) = Ok (net_pay b) /\
  ((ndigits (_int (gross_pay b)) <= 27)%Z -> (Etiny < _exp (gross_pay b))%Z ->
   value (tax_amount b) == value (gross_pay b) * (2 # 10) /\
   value (net_pay b) == value (gross_pay b) - value (tax_amount b)).
Proof.
  intros H. apply calculate_payroll_Ok in H as [H _].
  apply calculate_payroll_body_tail in H as (Ht & Hn & d & Hd).
  split; [exact Ht|]. split; [exact Hn|]. intros Hdig Hexp.
  apply _fix_exp_range in Hd.
  destruct (tax_net_exact _ _ _ Ht Hn Hdig ltac:(lia)) as [Et En].
  assert (value (tax_amount b) == value (gross_pay b) * (2 # 10)) as Htax.
  { rewrite Et. rewrite <- value_TAX_RATE, <- value_mul.
    unfold TAX_RATE, dec. cbn [_sign _int _exp].
    rewrite xorb_false_r. reflexivity. }
  split; [exact Htax|].
  rewrite Htax, En. unfold value, signed. cbn [_sign _int _exp].
  replace (_exp (gross_pay b) - 1)%Z with (_exp (gross_pay b) + -1)%Z by lia.
  rewrite Qpower_plus by apply ten_neq_0.
  change (inject_Z 10 ^ (-1)) with (1 # 10).
  destruct (N.eqb_spec (_int (gross_pay b)) 0) as [->|Hc].
  - rewrite andb_false_r. simpl. destruct (_sign (gross_pay b)); ring.
  - rewrite andb_true_r. rewrite N2Z.inj_mul.
    destruct (_sign (gross_pay b));
      rewrite ?inject_Z_opp, inject_Z_mult; field.
Qed.

(** C2, counterexample.  One hour at 9.999999999999999999999999999 gives
    that gross pay and a tax amount of 2.000000000000000000000000000,
    which is not a fifth of it: the product was rounded. *)
Lemma tax_rounded_at_28_digits :
  ~ (exists b w',
       calculate_payroll long_rate (start [long_rate]) = (Ok b, w')
       /\ value (tax_amount b) == value (gross_pay b) * (2 # 10)
       /\ value (net_pay b) == value (gross_pay b) - value (tax_amount b)).
Proof.
  intros (b & w' & H & Ht & _).
  assert (calculate_payroll long_rate (start [long_rate])
          = (Ok (mkPayroll (dec 0 0) (dec 0 0)
                   (dec 9999999999999999999999999999 (-27))
                   (dec 2000000000000000000000000000 (-27))
                   (dec 7999999999999999999999999999 (-27))),
             start [long_rate])) as E by (vm_compute; reflexivity).
  rewrite E in H. injection H as <- _.
  vm_compute in Ht. discriminate Ht.
Qed.

Lemma calculate_payroll_tax_net_witness :
  let b := mkPayroll (dec 5 (-1)) (dec 118125 (-4)) (dec 6418125 (-4))
             (dec 12836250 (-5)) (dec 51345000 (-5)) in
  calculate_payroll John_precise (start [John_precise])
    = (Ok b, start [John_precise]) /\
  (ndigits (_int (gross_pay b)) <= 27)%Z /\
  (Etiny < _exp (gross_pay b))%Z /\
  value (tax_amount b) == value (gross_pay b) * (2 # 10) /\
  value (net_pay b) == value (gross_pay b) - value (tax_amount b).
Proof.
  intros b.
  assert (calculate_payroll John_precise (start [John_precise])
          = (Ok b, start [John_precise])) as H by (vm_compute; reflexivity).
  assert ((ndigits (_int (gross_pay b)) <= 27)%Z) as Hd
    by (vm_compute; discriminate).
  assert ((Etiny < _exp (gross_pay b))%Z) as He by (vm_compute; reflexivity).
  split; [exact H|]. split; [exact Hd|]. split; [exact He|].
  exact (proj2 (proj2 (calculate_payroll_tax_net _ _ _ _ H)) Hd He).
Defined.

End TaxAndNet.

(** ** Plain hours and rates *)

Section ExactCalculation.

Local Open Scope Q_scope.




End ExactCalculation.

(** ** Gross pay *)

Section Formula.

Local Open Scope Q_scope.

(** The operations behind a breakdown, branch by branch. *)
Lemma calculate_payroll_steps e w b w' :
  calculate_payroll e w = (Ok b, w') ->
  (value (hours_worked e) <= 40 ->
     overtime_hours b = dec 0 0 /\ overtime_pay b = dec 0 0 /\
     __mul__ (hours_worked e) (hourly_rate e) = Ok (gross_pay b)) /\
  (40 < value (hours_worked e) ->
     __sub__ (hours_worked e) (of_int 40) = Ok (overtime_hours b) /\
     (rate <- __mul__ (hourly_rate e) (dec 15 (-1)) ;;
      __mul__ (overtime_hours b) rate) = Ok (overtime_pay b) /\
     (regular_pay <- __rmul__ (hourly_rate e) (of_int 40) ;;
      __add__ regular_pay (overtime_pay b)) = Ok (gross_pay b)).
Proof.
  intros H. apply calculate_payroll_Ok in H as [H _].
  unfold calculate_payroll_body in H.
  destruct (__gt__ (hours_worked e) (of_int REGULAR_HOURS)) eqn:Hgt.
  - apply gt_REGULAR_HOURS in Hgt. split.
    { intros Hle. now apply Qle_not_lt in Hle. }
    intros _. change (of_int REGULAR_HOURS) with (of_int 40) in H.
    change OVERTIME_MULTIPLIER with (dec 15 (-1)) in H.
    destruct (__sub__ (hours_worked e) (of_int 40)) as [oh|] eqn:E1;
      [simpl in H|discriminate H].
    destruct (__mul__ (hourly_rate e) (dec 15 (-1))) as [r|] eqn:E2;
      [simpl in H|discriminate H].
    destruct (__mul__ oh r) as [op|] eqn:E3; [simpl in H|discriminate H].
    destruct (__rmul__ (hourly_rate e) (of_int 40)) as [reg|] eqn:E4;
      [simpl in H|discriminate H].
    destruct (__add__ reg op) as [g|] eqn:E5; [simpl in H|discriminate H].
    destruct (__mul__ g TAX_RATE) as [t|]; [simpl in H|discriminate H].
    destruct (__sub__ g t) as [n|]; [simpl in H|discriminate H].
    injection H as <-. simpl. now rewrite E3, E5.
  - assert (value (hours_worked e) <= 40) as Hle.
    { apply Qnot_lt_le. rewrite <- gt_REGULAR_HOURS. congruence. }
    split.
    2:{ intros Hlt. now apply Qle_not_lt in Hle. }
    intros _.
    destruct (__mul__ (hours_worked e) (hourly_rate e)) as [g|] eqn:E1;
      [simpl in H|discriminate H].
    destruct (__mul__ g TAX_RATE) as [t|]; [simpl in H|discriminate H].
    destruct (__sub__ g t) as [n|]; [simpl in H|discriminate H].
    injection H as <-. now simpl.
Qed.




End Formula.

(** ** Scenarios and purity *)

Section Scenarios.

Local Open Scope Q_scope.




(** C9.  The outcome of [calculate_payroll] depends on the employee
    only; a second call, made in the state the first one left, has the
    outcome of the first; no call changes the processor, its roster or
    the employee records in it; and a call that returns changes
    nothing at all. *)
Theorem calculate_payroll_pure e w :
  let first := calculate_payroll e w in
  let second := calculate_payroll e (snd first) in
  fst second = fst first /\
  (forall w0, fst (calculate_payroll e w0) = fst first) /\
  this (snd first) = this w /\ this (snd second) = this w /\
  (forall i, nth_error (employees (this (snd second))) i
             = nth_error (employees (this w)) i) /\
  (forall b, fst first = Ok b -> snd first = w /\ snd second = w).
Proof.
  cbv zeta. rewrite !calculate_payroll_run.
  destruct (calculate_payroll_body e) as [b|x] eqn:E; simpl.
  - repeat split; try reflexivity.
    intros w0. rewrite calculate_payroll_run, E. reflexivity.
  - repeat split; try reflexivity; try discriminate.
    intros w0. rewrite calculate_payroll_run, E. reflexivity.
Qed.

End Scenarios.

(** ** Totals that do not overflow *)

Section Totals.

Lemma ndigits_bound c : Z.of_N c < 10 ^ ndigits c.
Proof.
  apply (ndigits_le_Z c (ndigits c)); [apply ndigits_pos|lia].
Qed.







End Totals.


(** ** The report *)

Section Report.

Lemma _fix_raises d x : _fix d = Raise x -> x = Overflow.
Proof.
  unfold _fix. destruct (_int d =? 0)%N; [discriminate|].
  destruct (Etop <? _); [now intros [= <-]|].
  destruct (_exp d <? _); [|discriminate].
  destruct (round_half_even _ _) as [up q].
  destruct (Etop <? _); [now intros [= <-]|discriminate].
Qed.

Lemma __add___raises a b x : __add__ a b = Raise x -> x = Overflow.
Proof. apply _fix_raises. Qed.

Lemma __mul___raises a b x : __mul__ a b = Raise x -> x = Overflow.
Proof. apply _fix_raises. Qed.

(** The arithmetic of [calculate_payroll] can only raise [Overflow]. *)
Lemma calculate_payroll_body_raises e x :
  calculate_payroll_body e = Raise x -> x = Overflow.
Proof.
  unfold calculate_payroll_body, __rmul__, __sub__.
  repeat match goal with
         | |- context [if ?c then _ else _] => destruct c
         | |- context [bind ?r _] =>
             let E := fresh "E" in
             destruct r eqn:E; cbn [bind];
             [|first [apply __add___raises in E | apply __mul___raises in E];
               intros [= <-]; exact E]
         end; discriminate.
Qed.

Lemma payrolls_length l : forall bs,
  payrolls l = Ok bs -> List.length bs = List.length l.
Proof.
  induction l as [|e l IH]; simpl; intros bs.
  - now intros [= <-].
  - destruct (calculate_payroll_body e) as [b|]; [simpl|discriminate].
    destruct (payrolls l) as [bs'|]; [simpl|discriminate].
    intros [= <-]. simpl. f_equal. now apply IH.
Qed.

(** The loop of [generate_report], when no operation overflows: one line
    is appended per employee and both totals are summed from the left; the
    state is left as it was. *)
Lemma report_loop_run l : forall lines tg tn w bs tg' tn',
  payrolls l = Ok bs ->
  total tg (map gross_pay bs) = Ok tg' ->
  total tn (map net_pay bs) = Ok tn' ->
  report_loop l (lines, tg, tn) w
  = (Ok ((lines ++ map (fun eb => report_line (fst eb) (snd eb))
                       (combine l bs))%list, tg', tn'), w).
Proof.
  induction l as [|e l IH]; intros lines tg tn w bs tg' tn'; simpl.
  - intros [= <-]. simpl. intros [= <-] [= <-].
    now rewrite app_nil_r.
  - rewrite calculate_payroll_run.
    destruct (calculate_payroll_body e) as [b|]; [simpl|discriminate].
    destruct (payrolls l) as [bs'|] eqn:Hbs; [simpl|discriminate].
    intros [= <-]. simpl.
    destruct (__add__ tg (gross_pay b)) as [tg1|]; [simpl|discriminate].
    destruct (__add__ tn (net_pay b)) as [tn1|]; [simpl|discriminate].
    intros Hg Hn. rewrite (IH _ _ _ _ _ _ _ eq_refl Hg Hn).
    now rewrite <- app_assoc.
Qed.

(** The loop returns only when no operation overflowed, and raises nothing
    but [Overflow]. *)
Lemma report_loop_inv l : forall lines tg tn w r w',
  report_loop l (lines, tg, tn) w = (r, w') ->
  match r with
  | Ok _ =>
      exists bs tg' tn',
        payrolls l = Ok bs /\ total tg (map gross_pay bs) = Ok tg'
        /\ total tn (map net_pay bs) = Ok tn'
  | Raise x => x = Overflow
  end.
Proof.
  induction l as [|e l IH]; intros lines tg tn w r w'; simpl.
  - intros [= <- <-]. now exists [], tg, tn.
  - rewrite calculate_payroll_run.
    destruct (calculate_payroll_body e) as [b|x] eqn:Eb.
    2:{ intros [= <- <-]. now apply calculate_payroll_body_raises in Eb. }
    destruct (__add__ tg (gross_pay b)) as [tg1|x] eqn:Eg.
    2:{ intros [= <- <-]. now apply __add___raises in Eg. }
    destruct (__add__ tn (net_pay b)) as [tn1|x] eqn:En.
    2:{ intros [= <- <-]. now apply __add___raises in En. }
    intros H. apply IH in H. destruct r as [res|x]; [|exact H].
    destruct H as (bs & tg' & tn' & Hbs & Hg & Hn).
    exists (b :: bs), tg', tn'. simpl. rewrite Hbs, Eg, En. simpl. auto.
Qed.

Lemma report_line_spec e b : report_line e b = spec_line e b.
Proof. reflexivity. Qed.



Example generate_report_overflow :
  generate_report (start [huge_rate])
  = (Raise Overflow,
     mkWorld (mkPayrollProcessor [huge_rate])
       [ERROR "Error calculating payroll for Eve: [<class 'decimal.Overflow'>]";
        ERROR "Error generating report: [<class 'decimal.Overflow'>]"]).
Proof. vm_compute. reflexivity. Qed.


(** C7.  The report of John (40 h at 15) and Jane (45 h at 20). *)
Theorem report_scenario :
  exists p report,
    __init__ [John; Jane] = Ok p /\
    generate_report (mkWorld p []) = (Ok report, mkWorld p []) /\
    report = join nl
      ["Employee Payroll Report:"; "========================";
       "John worked 40 hrs, gross $600.00, net $480.00";
       "Jane worked 45 hrs, gross $950.00, net $760.00";
       "Total Gross: $1550.00"; "Total Net: $1240.00"] /\
    contains "worked 40 hrs" "John worked 40 hrs, gross $600.00, net $480.00"
      = true /\
    contains "worked 45 hrs" "Jane worked 45 hrs, gross $950.00, net $760.00"
      = true /\
    contains "John worked 40 hrs" report = true /\
    contains "Jane worked 45 hrs" report = true /\
    contains "Total Gross: $1550.00" report = true /\
    contains "Total Net: $1240.00" report = true.
Proof.
  eexists. eexists. split; [reflexivity|]. split; [vm_compute; reflexivity|].
  repeat split; vm_compute; reflexivity.
Qed.

End Report.

(** * Further properties of the code *)

(** ** Construction *)

Section Construction.

Local Open Scope Q_scope.

Lemma validate_all_Ok l :
  validate_all l = Ok tt <-> Forall (fun e => validate e = Ok tt) l.
Proof.
  induction l as [|a l IH]; simpl.
  - split; auto.
  - destruct (validate a) as [[]|x] eqn:Ha; simpl.
    + rewrite IH. split; [now constructor|now inversion 1].
    + split; [discriminate|]. inversion 1. congruence.
Qed.


(** X1.  [PayrollProcessor(employees)] returns a processor exactly when the
    list is not empty and every employee has a non-empty text name, hours
    that are not negative and a positive rate; the processor then holds
    the list as it was given, in the same order. *)
Theorem init_accepts_valid_rosters l p :
  __init__ l = Ok p <->
  l <> [] /\ employees p = l /\
  Forall (fun e => nonempty_text (name e) /\ 0 <= value (hours_worked e)
                   /\ 0 < value (hourly_rate e)) l.
Proof.
  rewrite init_Ok. destruct p as [l']. cbn [employees].
  assert (Forall (fun e => validate e = Ok tt) l
          <-> Forall (fun e => nonempty_text (name e)
                               /\ 0 <= value (hours_worked e)
                               /\ 0 < value (hourly_rate e)) l) as ->.
  { rewrite !Forall_forall. split; intros H e He; apply validate_Ok; auto. }
  split.
  - intros (Hl & Hv & [= ->]). auto.
  - intros (Hl & -> & Hv). auto.
Qed.



(** The sign of the value is the sign of the coefficient. *)
Lemma value_compare_0 d : (value d ?= 0) = (signed d ?= 0)%Z.
Proof.
  unfold value. set (p := inject_Z 10 ^ _exp d).
  assert (0 == 0 * p) as E by ring.
  rewrite E at 1. rewrite (Qcompare_mult_r _ _ p (ten_pow_pos _)).
  change 0 with (inject_Z 0). apply Qcompare_inject_Z.
Qed.

End Construction.

(** ** Signs, failures and the log *)

Section Signs.

Local Open Scope Q_scope.

Lemma value_neg_iff d :
  value d < 0 <-> _sign d = true /\ _int d <> 0%N.
Proof.
  rewrite Qlt_alt, value_compare_0. unfold signed.
  rewrite Z.compare_lt_iff.
  destruct (_sign d); intuition (try discriminate; lia).
Qed.

Lemma value_pos_iff d :
  0 < value d <-> _sign d = false /\ _int d <> 0%N.
Proof.
  rewrite Qgt_alt, value_compare_0. unfold signed.
  rewrite Z.compare_gt_iff.
  destruct (_sign d); intuition (try discriminate; lia).
Qed.

Lemma value_nonneg_iff d :
  0 <= value d <-> _sign d = false \/ _int d = 0%N.
Proof.
  rewrite Qge_alt, value_compare_0. unfold signed.
  rewrite Z.compare_nlt_iff.
  destruct (_sign d); intuition (try discriminate; lia).
Qed.

(** X3.  [validate] reads only the name, the sign of the hours and the
    sign of the rate: it accepts an employee exactly when the name is a
    non-empty text, the hours are positive or a zero of either sign, and
    the rate is positive.  No magnitude is too large and zero hours are
    accepted, while a zero rate is not. *)
Theorem validate_reads_signs e :
  validate e = Ok tt <->
  nonempty_text (name e)
  /\ (_sign (hours_worked e) = false \/ _int (hours_worked e) = 0%N)
  /\ _sign (hourly_rate e) = false /\ _int (hourly_rate e) <> 0%N.
Proof.
  rewrite validate_Ok, value_nonneg_iff, value_pos_iff. tauto.
Qed.

End Signs.

Section Failures.



(** The loop leaves the state as it was when it returns, and stops as
    described when it raises. *)
Lemma report_loop_outcome l : forall lines tg tn w r w',
  report_loop l (lines, tg, tn) w = (r, w') ->
  match r with
  | Ok _ => w' = w
  | Raise x => x = Overflow /\ stops_at l tg tn w w'
  end.
Proof.
  induction l as [|e l IH]; intros lines tg tn w r w'; simpl.
  - now intros [= <- <-].
  - rewrite calculate_payroll_run.
    destruct (calculate_payroll_body e) as [b|x] eqn:Eb.
    2:{ intros [= <- <-]. apply calculate_payroll_body_raises in Eb as Hx.
        subst x. split; [reflexivity|].
        exists [], e, l, [], tg, tn. repeat split. left. split; auto. }
    destruct (__add__ tg (gross_pay b)) as [tg1|x] eqn:Eg.
    2:{ intros [= <- <-]. apply __add___raises in Eg as Hx. subst x.
        split; [reflexivity|]. exists [], e, l, [], tg, tn. repeat split.
        right. exists b. repeat split; auto. }
    destruct (__add__ tn (net_pay b)) as [tn1|x] eqn:En.
    2:{ intros [= <- <-]. apply __add___raises in En as Hx. subst x.
        split; [reflexivity|]. exists [], e, l, [], tg, tn. repeat split.
        right. exists b. split; [exact Eb|]. split; [|reflexivity].
        right. now exists tg1. }
    intros H. apply IH in H. destruct r as [res|x]; [exact H|].
    destruct H as (-> & pre & e0 & post & bs & tg' & tn' & -> & Hbs & Hg
                   & Hn & H).
    split; [reflexivity|].
    exists (e :: pre), e0, post, (b :: bs), tg', tn'. simpl.
    rewrite Eb, Hbs, Eg, En. simpl. repeat split; auto.
Qed.



End Failures.

(** ** Repeated reports and what a report contains *)

Section Repeat.

(** What the loop of [generate_report] computes does not depend on the
    log. *)
Lemma report_loop_log l : forall locals w1 w2,
  fst (report_loop l locals w1) = fst (report_loop l locals w2).
Proof.
  induction l as [|e l IH]; intros [[lines tg] tn] w1 w2; simpl.
  - reflexivity.
  - rewrite !calculate_payroll_run.
    destruct (calculate_payroll_body e) as [b|x]; [|reflexivity].
    destruct (__add__ tg (gross_pay b)) as [tg1|x]; [|reflexivity].
    destruct (__add__ tn (net_pay b)) as [tn1|x]; [|reflexivity].
    apply IH.
Qed.

(** [generate_report] returns exactly when the loop computes every payroll
    and both totals, and then leaves the state as it was. *)
Lemma generate_report_Ok w report w' :
  generate_report w = (Ok report, w') ->
  exists bs total_gross total_net,
    payrolls (employees (this w)) = Ok bs /\
    total (dec 0 0) (map gross_pay bs) = Ok total_gross /\
    total (dec 0 0) (map net_pay bs) = Ok total_net /\
    report = spec_report (employees (this w)) bs total_gross total_net /\
    w' = w.
Proof.
  unfold generate_report, try_log.
  destruct (report_loop (employees (this w)) (header, dec 0 0, dec 0 0) w)
    as [r w1] eqn:E.
  pose proof (report_loop_inv _ _ _ _ _ _ _ E) as Hinv.
  destruct r as [[[ls tg] tn]|x]; [|discriminate].
  destruct Hinv as (bs & tg' & tn' & Hbs & Hg & Hn).
  rewrite (report_loop_run _ _ _ _ _ _ _ _ Hbs Hg Hn) in E.
  injection E as <- <- <- <-. intros [= <- <-].
  exists bs, tg', tn'. split; [exact Hbs|]. split; [exact Hg|].
  split; [exact Hn|]. split; [|reflexivity].
  reflexivity.
Qed.

(** [generate_report] never changes the processor. *)
Lemma generate_report_this w : this (snd (generate_report w)) = this w.
Proof.
  unfold generate_report, try_log.
  destruct (report_loop (employees (this w)) (header, dec 0 0, dec 0 0) w)
    as [r w1] eqn:E.
  apply report_loop_outcome in E.
  destruct r as [[[ls tg] tn]|x]; simpl.
  - now subst.
  - destruct E as (_ & pre & e & post & bs & tg' & tn' & _ & _ & _ & _
                   & [(_ & ->)|(b & _ & _ & ->)]); reflexivity.
Qed.

(** X6.  [generate_report] keeps no state between calls: what it returns
    or raises depends on the roster only, not on the log nor on earlier
    calls, so a second call gives the same report; it never changes the
    processor, and a call that returns writes nothing to the log. *)
Theorem generate_report_repeatable w :
  (forall earlier,
     fst (generate_report (mkWorld (this w) earlier))
     = fst (generate_report w)) /\
  fst (generate_report (snd (generate_report w))) = fst (generate_report w) /\
  this (snd (generate_report w)) = this w /\
  (forall report, fst (generate_report w) = Ok report ->
                  snd (generate_report w) = w).
Proof.
  assert (forall w1 w2, this w1 = this w2 ->
            fst (generate_report w1) = fst (generate_report w2)) as Hfst.
  { intros w1 w2 Hw. unfold generate_report, try_log. rewrite Hw.
    pose proof (report_loop_log (employees (this w2))
                  (header, dec 0 0, dec 0 0) w1 w2) as H.
    destruct (report_loop _ _ w1) as [[[[l1 g1] n1]|x1] u1],
             (report_loop _ _ w2) as [[[[l2 g2] n2]|x2] u2];
      simpl in H; try discriminate H; now inversion H. }
  split; [|split; [|split]].
  - intros earlier. now apply Hfst.
  - apply Hfst. apply generate_report_this.
  - apply generate_report_this.
  - intros report H. destruct (generate_report w) as [r w'] eqn:E.
    simpl in H. subst r.
    now apply generate_report_Ok in E as (_ & _ & _ & _ & _ & _ & _ & ->).
Qed.

End Repeat.

Section Contents.

Lemma substring_infix a s b :
  substring (String.length a) (String.length s) (a ++ s ++ b) = s.
Proof.
  induction a as [|c a IH]; simpl; [apply substring_prefix|exact IH].
Qed.

(** A non-empty text occurs in every text it is a part of. *)
Lemma contains_infix a s b : s <> "" -> contains s (a ++ s ++ b) = true.
Proof.
  intros Hs. unfold contains.
  destruct (index 0 s (a ++ s ++ b)) eqn:E; [reflexivity|].
  exfalso.
  apply (index_correct3 0 (String.length a) _ _ E Hs ltac:(lia)).
  apply substring_infix.
Qed.

(** Every line occurs in the joined text. *)
Lemma join_infix sep line lines :
  In line lines -> exists a b, join sep lines = a ++ line ++ b.
Proof.
  unfold join. induction lines as [|l lines IH]; [contradiction|].
  intros [->|H].
  - destruct lines as [|l' lines]; simpl.
    + exists "", "". simpl. now rewrite append_nil_r.
    + exists "", (sep ++ concat sep (l' :: lines)). reflexivity.
  - destruct (IH H) as (a & b & E).
    destruct lines as [|l' lines]; [contradiction|].
    change (concat sep (l :: l' :: lines))
      with (l ++ sep ++ concat sep (l' :: lines)).
    rewrite E. exists (l ++ sep ++ a), b.
    now rewrite !append_assoc.
Qed.

Lemma contains_join sep s a b lines :
  s <> "" -> In (a ++ s ++ b) lines -> contains s (join sep lines) = true.
Proof.
  intros Hs Hin. destruct (join_infix sep _ _ Hin) as (a' & b' & ->).
  rewrite !append_assoc. rewrite <- (append_assoc a' a).
  now apply contains_infix.
Qed.

Lemma combine_In {A B} (x : A) (l : list A) : forall (l' : list B),
  In x l -> List.length l' = List.length l ->
  exists y, In (x, y) (combine l l').
Proof.
  induction l as [|a l IH]; intros [|b l'] Hin Hlen; simpl in *;
    try contradiction; try discriminate.
  destruct Hin as [->|Hin].
  - exists b. now left.
  - destruct (IH l' Hin ltac:(lia)) as (y & Hy). exists y. now right.
Qed.

(** X7.  A report that [generate_report] returns contains the title
    ["Employee Payroll Report:"], for every employee of the roster the
    text ["<name> worked <hours> hrs"], and the two labels
    ["Total Gross: $"] and ["Total Net: $"]. *)
Theorem report_contains w report w' :
  generate_report w = (Ok report, w') ->
  contains "Employee Payroll Report:" report = true /\
  (forall e, In e (employees (this w)) ->
     contains (format_obj (name e) ++ " worked " ++ __str__ (hours_worked e)
               ++ " hrs") report = true) /\
  contains "Total Gross: $" report = true /\
  contains "Total Net: $" report = true.
Proof.
  intros H.
  apply generate_report_Ok in H as (bs & tg & tn & Hbs & _ & _ & -> & _).
  unfold spec_report. split; [|split; [|split]].
  - apply (contains_join _ _ "" ""); [discriminate|]. simpl. now left.
  - intros e He.
    destruct (combine_In e _ bs He (payrolls_length _ _ Hbs)) as (b & Hb).
    apply (contains_join _ _ ""
             (", gross $" ++ format_f 2 (gross_pay b)
              ++ ", net $" ++ format_f 2 (net_pay b))).
    + destruct (format_obj (name e)); discriminate.
    + apply in_or_app. right. apply in_or_app. left.
      apply in_map_iff. exists (e, b). split; [|exact Hb].
      unfold spec_line. cbn [fst snd].
      rewrite !append_assoc. reflexivity.
  - apply (contains_join _ _ "" (format_f 2 tg)); [discriminate|].
    apply in_or_app. right. apply in_or_app. right. now left.
  - apply (contains_join _ _ "" (format_f 2 tn)); [discriminate|].
    apply in_or_app. right. apply in_or_app. right. right. now left.
Qed.

Lemma report_contains_witness :
  let w := start [John; Jane] in
  let report :=
    join nl ["Employee Payroll Report:"; "========================";
             "John worked 40 hrs, gross $600.00, net $480.00";
             "Jane worked 45 hrs, gross $950.00, net $760.00";
             "Total Gross: $1550.00"; "Total Net: $1240.00"] in
  generate_report w = (Ok report, w) /\
  contains "Employee Payroll Report:" report = true /\
  (forall e, In e (employees (this w)) ->
     contains (format_obj (name e) ++ " worked " ++ __str__ (hours_worked e)
               ++ " hrs") report = true) /\
  contains "Total Gross: $" report = true /\
  contains "Total Net: $" report = true.
Proof.
  intros w report.
  assert (generate_report w = (Ok report, w)) as H
    by (vm_compute; reflexivity).
  split; [exact H|].
  exact (report_contains _ _ _ H).
Defined.

End Contents.

Section HalfCent.

(** X8.  An amount that lies exactly halfway between two hundredths is
    printed by [.2f] at the even one, not rounded up: 0.125 prints as
    0.12 and 0.135 as 0.14. *)
Theorem format_half_cent_even negative q :
  format_f 2 (mkDecimal negative (10 * q + 5) (-3))
  = amount negative (if N.odd q then (q + 1)%N else q).
Proof.
  rewrite format_f_2. cbn [_sign]. f_equal.
  unfold _rescale. cbn [_sign _int _exp].
  destruct (N.eqb_spec (10 * q + 5) 0) as [H|_]; [lia|].
  change (-2 <=? -3) with false. cbv iota.
  unfold round_half_even. change (10 ^ Z.to_N (-2 - -3))%N with 10%N.
  assert ((10 * q + 5) / 10 = q)%N as ->.
  { symmetry. apply (N.div_unique _ 10 q 5); lia. }
  assert ((10 * q + 5) mod 10 = 5)%N as ->.
  { symmetry. apply (N.mod_unique _ 10 q 5); lia. }
  change (2 * 5 ?= 10)%N with Eq. now destruct (N.odd q).
Qed.

End HalfCent.

(** ** Pay on plain amounts *)

Section Pay.

Local Open Scope Q_scope.







End Pay.

(** ** Amounts that are never negative *)

Section NonNegative.

(** Rounding to the context keeps the sign, and keeps a zero. *)
Lemma _fix_sign d d' : _fix d = Ok d' -> _sign d' = _sign d.
Proof.
  unfold _fix. destruct (_int d =? 0)%N; [now intros [= <-]|].
  destruct (Etop <? _); [discriminate|].
  destruct (_exp d <? _); [|now intros [= <-]].
  destruct (round_half_even _ _) as [up q].
  destruct (Etop <? _); [discriminate|]. now intros [= <-].
Qed.

Lemma _fix_zero d d' : _fix d = Ok d' -> _int d = 0%N -> _int d' = 0%N.
Proof.
  intros H H0. unfold _fix in H. rewrite H0 in H. simpl in H.
  now injection H as <-.
Qed.

Lemma _fix_nonneg d d' :
  _fix d = Ok d' -> _sign d = false \/ _int d = 0%N ->
  (0 <= value d')%Q.
Proof.
  intros H Hd. apply value_nonneg_iff. destruct Hd as [Hs|H0].
  - left. now rewrite (_fix_sign _ _ H).
  - right. now apply (_fix_zero _ _ H).
Qed.

Lemma __mul___nonneg a b p :
  __mul__ a b = Ok p -> (0 <= value a)%Q -> (0 <= value b)%Q ->
  (0 <= value p)%Q.
Proof.
  intros H Ha Hb. apply value_nonneg_iff in Ha, Hb.
  apply (_fix_nonneg _ _ H). cbn [_sign _int].
  destruct Ha as [-> | ->], Hb as [-> | ->]; auto; right; lia.
Qed.

Lemma aligned_nonneg d exp :
  _sign d = false \/ _int d = 0%N -> 0 <= aligned d exp.
Proof.
  intros H. unfold aligned, signed. apply Z.mul_nonneg_nonneg.
  - destruct H as [-> | ->]; [lia|destruct (_sign d); lia].
  - apply Z.pow_nonneg. lia.
Qed.

(** The sign [__add__] gives a sum that is not negative. *)
Lemma sum_nonneg (v : Z) (s : bool) e d' :
  0 <= v ->
  _fix (mkDecimal (if v =? 0 then s else v <? 0) (Z.to_N (Z.abs v)) e)
  = Ok d' ->
  (0 <= value d')%Q.
Proof.
  intros Hv H. apply (_fix_nonneg _ _ H). cbn [_sign _int].
  destruct (Z.eqb_spec v 0) as [->|Hnz]; [now right|].
  left. apply Z.ltb_ge. exact Hv.
Qed.

Lemma __add___nonneg a b s :
  __add__ a b = Ok s -> (0 <= value a)%Q -> (0 <= value b)%Q ->
  (0 <= value s)%Q.
Proof.
  intros H Ha Hb. apply value_nonneg_iff in Ha, Hb.
  unfold __add__ in H. apply (sum_nonneg _ _ _ _) in H; [exact H|].
  pose proof (aligned_nonneg a (Z.min (_exp a) (_exp b)) Ha).
  pose proof (aligned_nonneg b (Z.min (_exp a) (_exp b)) Hb). lia.
Qed.

Lemma aligned_copy_negate d exp :
  aligned (copy_negate d) exp = - aligned d exp.
Proof.
  unfold aligned, copy_negate, signed. cbn [_sign _int _exp].
  destruct (_sign d); cbn [negb]; lia.
Qed.

Lemma value_le_aligned a b :
  (value b <= value a)%Q <->
  aligned b (Z.min (_exp a) (_exp b)) <= aligned a (Z.min (_exp a) (_exp b)).
Proof.
  rewrite Qge_alt, <- _cmp_value. unfold _cmp.
  rewrite Z.compare_nlt_iff. lia.
Qed.

(** A difference is not negative when the subtrahend is not larger. *)
Lemma __sub___nonneg a b n :
  __sub__ a b = Ok n -> (value b <= value a)%Q -> (0 <= value n)%Q.
Proof.
  intros H Hle. apply value_le_aligned in Hle.
  unfold __sub__, __add__ in H. cbn [copy_negate _exp] in H.
  rewrite aligned_copy_negate in H.
  apply (sum_nonneg _ _ _ _) in H; [exact H|lia].
Qed.

(** A coefficient of [n] digits is at least [10^(n-1)]. *)
Lemma ndigits_lower c : 2 <= ndigits c -> 10 ^ (ndigits c - 1) <= Z.of_N c.
Proof.
  intros H.
  destruct (Z.le_gt_cases (10 ^ (ndigits c - 1)) (Z.of_N c)) as [|Hlt];
    [assumption|].
  apply (ndigits_le_Z c (ndigits c - 1)) in Hlt; lia.
Qed.

(** The tax on a gross pay that is not negative does not exceed it, also
    when the product is rounded. *)
Lemma tax_le_gross g t :
  __mul__ g TAX_RATE = Ok t -> (0 <= value g)%Q -> Etiny <= _exp g ->
  (value t <= value g)%Q.
Proof.
  intros H Hg He.
  pose proof (__mul___nonneg _ _ _ H Hg ltac:(discriminate)) as Ht.
  apply value_nonneg_iff in Hg.
  destruct g as [s c e]. cbn [_sign _int _exp] in *.
  destruct (N.eqb_spec c 0) as [->|Hc].
  { apply (_fix_zero _ _) in H; [|reflexivity].
    destruct t as [st ct et]. cbn [_int] in H. subst ct.
    rewrite !value_zero. discriminate. }
  destruct Hg as [->|Hg]; [|contradiction].
  apply value_le_aligned. cbn [_exp].
  unfold __mul__, TAX_RATE, dec in H. cbn [_sign _int _exp] in H.
  change (Z.to_N (Z.abs 2)) with 2%N in H. change (2 <? 0) with false in H.
  cbn [xorb] in H.
  unfold _fix in H. cbn [_sign _int _exp] in H.
  destruct (N.eqb_spec (c * 2) 0) as [|_]; [lia|].
  set (n := ndigits (c * 2)) in *.
  pose proof (ndigits_pos (c * 2)) as Hn. fold n in Hn.
  destruct (Z.ltb_spec Etop (n + (e + -1) - prec)) as [|Hov];
    [discriminate|].
  set (em := Z.max (n + (e + -1) - prec) Etiny) in *.
  destruct (Z.ltb_spec (e + -1) em) as [Hr|Hr].
  2:{ injection H as <-. cbn [_exp]. unfold aligned, signed.
      cbn [_sign _int _exp].
      replace (Z.min e (e + -1)) with (e + -1) by lia.
      replace (e + -1 - (e + -1)) with 0 by lia.
      replace (e - (e + -1)) with 1 by lia.
      change (10 ^ 0) with 1. change (10 ^ 1) with 10. lia. }
  set (k := em - (e + -1)) in *.
  assert (1 <= k) as Hk by (unfold k; lia).
  pose proof (round_half_even_error (c * 2) k Hk) as Herr. cbv zeta in Herr.
  destruct (round_half_even (c * 2) k) as [up q]. cbn [fst snd] in Herr.
  set (c1 := if up then (q + 1)%N else q) in *.
  set (carry := up && (prec <? ndigits c1)) in *.
  destruct (Z.ltb_spec Etop (if carry then em + 1 else em)); [discriminate|].
  injection H as <-. cbn [_exp].
  assert (0 < 10 ^ k) as Hpos by (apply Z.pow_pos_nonneg; lia).
  (* the discarded digits weigh less than the gross pay *)
  assert (10 ^ k <= 16 * Z.of_N c) as Hsmall.
  { destruct (Z.le_gt_cases k 1) as [Hk1|Hk1].
    - assert (k = 1) as -> by lia. change (10 ^ 1) with 10. lia.
    - assert (k = n - 28) as Hkn by (unfold k, em in *; context_lia).
      pose proof (ndigits_lower (c * 2) ltac:(fold n; lia)) as Hlow.
      fold n in Hlow.
      assert (10 ^ k <= 10 ^ (n - 1)) by (apply Z.pow_le_mono_r; lia).
      lia. }
  assert (Z.of_N c1 * 10 ^ (k - 1) <= Z.of_N c) as Hc1.
  { assert (10 ^ k = 10 * 10 ^ (k - 1)) as Hp.
    { replace k with (1 + (k - 1)) at 1 by lia.
      rewrite Z.pow_add_r by lia. reflexivity. }
    assert (0 < 10 ^ (k - 1)) by (apply Z.pow_pos_nonneg; lia).
    rewrite N2Z.inj_mul in Herr. change (Z.of_N 2) with 2 in Herr. nia. }
  unfold aligned, signed. cbn [_sign _int _exp].
  destruct carry.
  - replace (Z.min e (em + 1)) with e by lia.
    replace (e - e) with 0 by lia. change (10 ^ 0) with 1.
    replace (em + 1 - e) with (1 + (k - 1)) by (unfold k; lia).
    rewrite Z.pow_add_r by lia. change (10 ^ 1) with 10.
    assert (0 < 10 ^ (k - 1)) by (apply Z.pow_pos_nonneg; lia).
    rewrite N2Z.inj_div. change (Z.of_N 10) with 10.
    pose proof (Z.mul_div_le (Z.of_N c1) 10 ltac:(lia)). nia.
  - replace (Z.min e em) with e by lia.
    replace (e - e) with 0 by lia. change (10 ^ 0) with 1.
    replace (em - e) with (k - 1) by (unfold k; lia). lia.
Qed.

(** What [_fix] returns has at most [prec] digits. *)
Lemma _fix_digits d d' : _fix d = Ok d' -> ndigits (_int d') <= prec.
Proof.
  destruct d as [s c e]. unfold _fix. cbn [_sign _int _exp].
  destruct (N.eqb_spec c 0) as [->|Hc].
  { intros [= <-]. cbn [_int]. change (ndigits 0) with 1. context_lia. }
  pose proof (ndigits_pos c) as Hpos. pose proof (ndigits_bound c) as Hc'.
  set (nd := ndigits c) in *.
  destruct (Z.ltb_spec Etop (nd + e - prec)); [discriminate|].
  set (em := Z.max (nd + e - prec) Etiny).
  destruct (Z.ltb_spec e em) as [Hr|Hr].
  2:{ intros [= <-]. cbn [_int]. fold nd. unfold em in Hr. lia. }
  set (k := em - e). assert (1 <= k) as Hk by (unfold k; lia).
  assert (nd - 28 <= k) as Hk' by (unfold k, em; context_lia).
  unfold round_half_even. set (p := (10 ^ Z.to_N k)%N).
  set (q := (c / p)%N). set (up := match (2 * (c mod p) ?= p)%N with
                                   | Gt => true | Eq => N.odd q | Lt => false
                                   end).
  assert (q < 10 ^ 28)%N as Hq.
  { apply N.Div0.div_lt_upper_bound. unfold p. rewrite <- N.pow_add_r.
    apply N2Z.inj_lt. rewrite N2Z.inj_pow, N2Z.inj_add, Z2N.id by lia.
    change (Z.of_N 10) with 10. change (Z.of_N 28) with 28.
    apply Z.lt_le_trans with (10 ^ nd); [exact Hc'|].
    apply Z.pow_le_mono_r; lia. }
  set (coeff := if up then (q + 1)%N else q).
  assert (coeff <= 10 ^ 28)%N as Hcoeff by (unfold coeff; destruct up; lia).
  set (carry := up && (prec <? ndigits coeff)).
  destruct (Z.ltb_spec Etop (if carry then em + 1 else em)); [discriminate|].
  intros [= <-]. cbn [_int].
  apply (ndigits_le _ 28); [lia|]. change (Z.to_N 28) with 28%N.
  unfold carry. destruct up; cbn [andb].
  - destruct (Z.ltb_spec prec (ndigits coeff)) as [Hlt|Hge].
    + apply N.Div0.div_lt_upper_bound.
      change (10 ^ 28)%N with 10000000000000000000000000000%N in *. lia.
    + apply (ndigits_le _ 28) in Hge; [exact Hge|lia].
  - unfold coeff. exact Hq.
Qed.

(** Rounding half-even does not pass a multiple of the unit it rounds
    to. *)
Lemma round_half_even_grid c k m :
  1 <= k -> Z.of_N c <= m * 10 ^ k ->
  Z.of_N (if fst (round_half_even c k) then snd (round_half_even c k) + 1
          else snd (round_half_even c k)) <= m.
Proof.
  intros Hk Hc. unfold round_half_even. cbn [fst snd].
  assert (Z.of_N (10 ^ Z.to_N k) = 10 ^ k) as Hp.
  { rewrite N2Z.inj_pow. f_equal. lia. }
  assert (0 < 10 ^ k) as Hpos by (apply Z.pow_pos_nonneg; lia).
  set (p := (10 ^ Z.to_N k)%N) in *.
  pose proof (N.div_mod c p ltac:(lia)) as Hdm.
  pose proof (N.mod_lt c p ltac:(lia)) as Hlt.
  set (q := (c / p)%N) in *. set (r := (c mod p)%N) in *.
  assert (Z.of_N c = Z.of_N q * 10 ^ k + Z.of_N r) as Hc' by nia.
  assert (Z.of_N q <= m) as Hq by nia.
  destruct (Z.eq_dec (Z.of_N q) m) as [Hqm|Hqm].
  - assert (r = 0%N) as Hr0 by nia.
    destruct (N.compare_spec (2 * r) p); lia.
  - destruct (2 * r ?= p)%N; try destruct (N.odd q); lia.
Qed.

(** Subtracting an amount that is not negative from a rounded amount does
    not give more than that amount, also when the difference is
    rounded. *)
Lemma difference_le g t n :
  __sub__ g t = Ok n ->
  ndigits (_int g) <= prec -> Etiny <= _exp g ->
  (0 <= value t)%Q -> (value t <= value g)%Q ->
  (value n <= value g)%Q.
Proof.
  intros H Hdig He Ht Hle.
  assert ((0 <= value g)%Q) as Hg by (now apply Qle_trans with (value t)).
  apply value_nonneg_iff in Hg as Hg', Ht.
  apply value_le_aligned in Hle.
  unfold __sub__, __add__ in H. cbn [copy_negate _exp] in H.
  rewrite aligned_copy_negate in H.
  set (exp := Z.min (_exp g) (_exp t)) in *.
  pose proof (aligned_nonneg t exp Ht) as Ht0.
  set (G := aligned g exp) in *.
  set (v := G + - aligned t exp) in *.
  assert (0 <= v <= G) as Hv by (unfold v; lia).
  apply value_le_aligned.
  assert (forall x, 0 <= aligned g x) as Hgx
    by (intros x; now apply aligned_nonneg).
  assert (G = Z.of_N (_int g) * 10 ^ (_exp g - exp)) as HG.
  { unfold G, aligned, signed. destruct Hg' as [-> | ->]; [reflexivity|].
    destruct (_sign g); reflexivity. }
  unfold _fix in H. cbn [_sign _int _exp] in H.
  destruct (N.eqb_spec (Z.to_N (Z.abs v)) 0) as [H0|H0].
  { injection H as <-. cbn [_exp]. unfold aligned at 1, signed.
    cbn [_sign _int _exp].
    assert (forall b : bool, (if b then - Z.of_N 0 else Z.of_N 0) = 0) as ->
      by (now intros []).
    rewrite Z.mul_0_l. apply Hgx. }
  assert (0 < v) as Hvpos by lia.
  assert (forall b : bool, (if v =? 0 then b else v <? 0) = false) as Hsign.
  { intros b. destruct (Z.eqb_spec v 0); [lia|]. apply Z.ltb_ge. lia. }
  rewrite Hsign in H.
  assert (Z.of_N (Z.to_N (Z.abs v)) = v) as Hvabs by lia.
  set (c := Z.to_N (Z.abs v)) in *.
  set (nd := ndigits c) in *.
  pose proof (ndigits_pos c) as Hnd. fold nd in Hnd.
  destruct (Z.ltb_spec Etop (nd + exp - prec)); [discriminate|].
  set (em := Z.max (nd + exp - prec) Etiny) in *.
  destruct (Z.ltb_spec exp em) as [Hr|Hr].
  2:{ injection H as <-. cbn [_exp].
      replace (Z.min (_exp g) exp) with exp by (unfold exp; lia).
      unfold aligned at 1, signed. cbn [_sign _int _exp].
      replace (exp - exp) with 0 by lia. change (10 ^ 0) with 1.
      fold G. lia. }
  (* the rounded digits lie below the last digit of [g] *)
  assert (em <= _exp g) as Hem.
  { assert (nd <= prec + _exp g - exp); [|unfold em; lia].
    assert (exp <= _exp g) by (unfold exp; lia).
    apply (ndigits_le_Z c (prec + _exp g - exp)); [context_lia|].
    rewrite Hvabs. apply Z.le_lt_trans with G; [lia|].
    rewrite HG. pose proof (ndigits_bound (_int g)) as Hb.
    assert (0 < 10 ^ (_exp g - exp)) by (apply Z.pow_pos_nonneg; lia).
    apply Z.lt_le_trans with (10 ^ ndigits (_int g) * 10 ^ (_exp g - exp)).
    - apply Z.mul_lt_mono_pos_r; assumption.
    - rewrite <- Z.pow_add_r by (pose proof (ndigits_pos (_int g)); lia).
      apply Z.pow_le_mono_r; lia. }
  set (k := em - exp) in *.
  assert (1 <= k) as Hk by (unfold k; lia).
  set (m := Z.of_N (_int g) * 10 ^ (_exp g - em)).
  assert (G = m * 10 ^ k) as HGm.
  { rewrite HG. unfold m. rewrite <- Z.mul_assoc, <- Z.pow_add_r
      by (unfold k; lia). do 2 f_equal. unfold k. lia. }
  pose proof (round_half_even_grid c k m Hk ltac:(lia)) as Hgrid.
  destruct (round_half_even c k) as [up q]. cbn [fst snd] in Hgrid.
  set (c1 := if up then (q + 1)%N else q) in *.
  set (carry := up && (prec <? ndigits c1)) in *.
  destruct (Z.ltb_spec Etop (if carry then em + 1 else em)); [discriminate|].
  injection H as <-. cbn [_exp].
  assert (aligned g em = m) as Hgm.
  { unfold aligned, signed, m. destruct Hg' as [-> | ->]; [reflexivity|].
    destruct (_sign g); reflexivity. }
  destruct carry.
  - unfold aligned at 1, signed. cbn [_sign _int _exp].
    rewrite N2Z.inj_div. change (Z.of_N 10) with 10.
    pose proof (Z.mul_div_le (Z.of_N c1) 10 ltac:(lia)) as Hdiv.
    destruct (Z.le_gt_cases (em + 1) (_exp g)) as [Hle1|Hgt1].
    + replace (Z.min (_exp g) (em + 1)) with (em + 1) by lia.
      replace (em + 1 - (em + 1)) with 0 by lia. change (10 ^ 0) with 1.
      assert (aligned g em = aligned g (em + 1) * 10) as Hal.
      { unfold aligned. replace (_exp g - em) with (_exp g - (em + 1) + 1)
          by lia. rewrite Z.pow_add_r by lia. change (10 ^ 1) with 10. lia. }
      lia.
    + replace (Z.min (_exp g) (em + 1)) with em by lia.
      replace (em + 1 - em) with 1 by lia. change (10 ^ 1) with 10. lia.
  - replace (Z.min (_exp g) em) with em by lia.
    unfold aligned at 1, signed. cbn [_sign _int _exp].
    replace (em - em) with 0 by lia. change (10 ^ 0) with 1. lia.
Qed.

(** For an employee that [validate] accepts, overtime and gross pay are
    not negative, and the tax does not exceed the gross pay. *)
Lemma valid_gross e b :
  validate e = Ok tt -> calculate_payroll_body e = Ok b ->
  (0 <= value (overtime_hours b) /\ 0 <= value (overtime_pay b) /\
   0 <= value (gross_pay b) /\
   0 <= value (tax_amount b) <= value (gross_pay b))%Q.
Proof.
  intros Hv H. apply validate_Ok in Hv as (_ & Hh & Hr).
  apply Qlt_le_weak in Hr.
  pose proof (calculate_payroll_steps e (start []) b (start [])) as Hsteps.
  rewrite calculate_payroll_run, H in Hsteps.
  destruct (Hsteps eq_refl) as [Hreg Hov].
  apply calculate_payroll_body_tail in H as (Ht & Hn & d & Hd).
  apply _fix_exp_range in Hd.
  assert ((0 <= value (overtime_hours b) /\ 0 <= value (overtime_pay b) /\
           0 <= value (gross_pay b))%Q) as (Hoh & Hop & Hg).
  { destruct (Qlt_le_dec 40 (value (hours_worked e))) as [Hgt|Hle].
    - destruct (Hov Hgt) as (E1 & E2 & E3).
      destruct (__mul__ (hourly_rate e) (dec 15 (-1))) as [r|] eqn:Er;
        [cbn [bind] in E2|discriminate E2].
      destruct (__rmul__ (hourly_rate e) (of_int 40)) as [reg|] eqn:Ereg;
        [cbn [bind] in E3|discriminate E3].
      assert ((0 <= value (overtime_hours b))%Q) as Hoh.
      { apply (__sub___nonneg _ _ _ E1).
        change (value (of_int 40)) with 40%Q. now apply Qlt_le_weak. }
      assert ((0 <= value r)%Q) as Hr15.
      { apply (__mul___nonneg _ _ _ Er Hr). discriminate. }
      assert ((0 <= value (overtime_pay b))%Q) as Hop
        by apply (__mul___nonneg _ _ _ E2 Hoh Hr15).
      assert ((0 <= value reg)%Q) as Hreg'.
      { apply (__mul___nonneg _ _ _ Ereg Hr). discriminate. }
      repeat split; auto. apply (__add___nonneg _ _ _ E3 Hreg' Hop).
    - destruct (Hreg Hle) as (-> & -> & E).
      repeat split; try discriminate.
      apply (__mul___nonneg _ _ _ E Hh Hr). }
  split; [exact Hoh|]. split; [exact Hop|]. split; [exact Hg|]. split.
  - apply (__mul___nonneg _ _ _ Ht Hg). discriminate.
  - apply (tax_le_gross _ _ Ht Hg). lia.
Qed.

(** X11.  For an employee that [validate] accepts, whenever
    [calculate_payroll] returns, no amount of the breakdown is negative:
    overtime hours, overtime pay, gross pay, tax amount and net pay are at
    least zero, and neither the tax amount nor the net pay exceeds the
    gross pay, whatever was rounded on the way. *)
Theorem valid_employee_amounts e w b w' :
  validate e = Ok tt -> calculate_payroll e w = (Ok b, w') ->
  (0 <= value (overtime_hours b) /\ 0 <= value (overtime_pay b) /\
   0 <= value (gross_pay b) /\
   0 <= value (tax_amount b) <= value (gross_pay b) /\
   0 <= value (net_pay b) <= value (gross_pay b))%Q.
Proof.
  intros Hv H. apply calculate_payroll_Ok in H as [H _].
  destruct (valid_gross e b Hv H) as (Hoh & Hop & Hg & Ht0 & Hle).
  apply calculate_payroll_body_tail in H as (Ht & Hn & d & Hd).
  pose proof (_fix_digits _ _ Hd) as Hdig.
  apply _fix_exp_range in Hd.
  split; [exact Hoh|]. split; [exact Hop|]. split; [exact Hg|].
  split; [now split|]. split.
  - apply (__sub___nonneg _ _ _ Hn Hle).
  - apply (difference_le _ _ _ Hn Hdig ltac:(lia) Ht0 Hle).
Qed.

Lemma valid_employee_amounts_witness :
  let b := mkPayroll (dec 5 0) (dec 1500 (-1)) (dec 9500 (-1)) (dec 19000 (-2))
             (dec 76000 (-2)) in
  validate Jane = Ok tt /\
  calculate_payroll Jane (start [Jane]) = (Ok b, start [Jane]) /\
  (0 <= value (overtime_hours b) /\ 0 <= value (overtime_pay b) /\
   0 <= value (gross_pay b) /\
   0 <= value (tax_amount b) <= value (gross_pay b) /\
   0 <= value (net_pay b) <= value (gross_pay b))%Q.
Proof.
  intros b.
  assert (validate Jane = Ok tt) as Hv by (vm_compute; reflexivity).
  assert (calculate_payroll Jane (start [Jane]) = (Ok b, start [Jane])) as H
    by (vm_compute; reflexivity).
  split; [exact Hv|]. split; [exact H|].
  exact (valid_employee_amounts _ _ _ _ Hv H).
Defined.

(** The sum of an amount written without minus sign and one that is not
    negative is written without minus sign. *)
Lemma __add___unsigned a b s :
  __add__ a b = Ok s -> _sign a = false -> (0 <= value b)%Q ->
  _sign s = false /\ (0 <= value s)%Q.
Proof.
  intros H Ha Hb. apply value_nonneg_iff in Hb.
  assert (_sign s = false) as Hs.
  { unfold __add__ in H. apply _fix_sign in H. cbn [_sign] in H.
    pose proof (aligned_nonneg a (Z.min (_exp a) (_exp b)) (or_introl Ha)).
    pose proof (aligned_nonneg b (Z.min (_exp a) (_exp b)) Hb).
    rewrite H, Ha. cbn [andb].
    set (v := aligned a _ + aligned b _) in *.
    destruct (Z.eqb_spec v 0); [reflexivity|]. apply Z.ltb_ge. lia. }
  split; [exact Hs|]. apply value_nonneg_iff. now left.
Qed.

Lemma total_unsigned ds : forall acc t,
  total acc ds = Ok t -> _sign acc = false ->
  Forall (fun d => (0 <= value d)%Q) ds ->
  _sign t = false.
Proof.
  induction ds as [|d ds IH]; intros acc t; simpl.
  - now intros [= <-].
  - destruct (__add__ acc d) as [s|] eqn:E; [cbn [bind]|discriminate].
    intros H Hacc Hds. inversion Hds as [|? ? Hd Hds']; subst.
    apply (IH s t H); [|exact Hds'].
    now apply (__add___unsigned _ _ _ E Hacc Hd).
Qed.

(** The breakdowns of employees that [validate] accepts hold no negative
    gross or net pay. *)
Lemma payrolls_valid emps : forall bs,
  Forall (fun e => validate e = Ok tt) emps -> payrolls emps = Ok bs ->
  Forall (fun d => (0 <= value d)%Q) (map gross_pay bs) /\
  Forall (fun d => (0 <= value d)%Q) (map net_pay bs).
Proof.
  induction emps as [|e emps IH]; intros bs Hv; simpl.
  - intros [= <-]. split; constructor.
  - inversion Hv as [|? ? He Hv']; subst.
    destruct (calculate_payroll_body e) as [b|] eqn:Eb;
      [cbn [bind]|discriminate].
    destruct (payrolls emps) as [bs'|] eqn:Ebs; [cbn [bind]|discriminate].
    intros [= <-]. destruct (IH bs' Hv' eq_refl) as [Hg Hn].
    destruct (valid_gross e b He Eb) as (_ & _ & Hg0 & _ & Hle).
    apply calculate_payroll_body_tail in Eb as (_ & Hsub & _).
    split; constructor; auto.
    apply (__sub___nonneg _ _ _ Hsub Hle).
Qed.

(** X12.  On a processor the constructor returned, a report that
    [generate_report] returns never shows a negative total: the total
    gross pay and the total net pay are at least zero and are printed
    without minus sign, as digits, a point and two decimals. *)
Theorem report_totals_unsigned emps p w report w' :
  __init__ emps = Ok p -> this w = p ->
  generate_report w = (Ok report, w') ->
  exists bs total_gross total_net,
    report = spec_report emps bs total_gross total_net /\
    (0 <= value total_gross)%Q /\ (0 <= value total_net)%Q /\
    (exists cents, format_f 2 total_gross = amount false cents) /\
    (exists cents, format_f 2 total_net = amount false cents).
Proof.
  intros Hinit Hw H. apply init_Ok in Hinit as (_ & Hv & ->).
  apply generate_report_Ok in H as (bs & tg & tn & Hbs & Hg & Hn & -> & _).
  rewrite Hw in *. cbn [employees] in *.
  destruct (payrolls_valid _ _ Hv Hbs) as [Hgs Hns].
  pose proof (total_unsigned _ _ _ Hg eq_refl Hgs) as Sg.
  pose proof (total_unsigned _ _ _ Hn eq_refl Hns) as Sn.
  exists bs, tg, tn. split; [reflexivity|].
  split; [apply value_nonneg_iff; now left|].
  split; [apply value_nonneg_iff; now left|].
  split; eexists; rewrite format_f_2; [rewrite Sg|rewrite Sn]; reflexivity.
Qed.

Lemma report_totals_unsigned_witness :
  let emps := [John; Jane] in
  let w := start emps in
  let report :=
    join nl ["Employee Payroll Report:"; "========================";
             "John worked 40 hrs, gross $600.00, net $480.00";
             "Jane worked 45 hrs, gross $950.00, net $760.00";
             "Total Gross: $1550.00"; "Total Net: $1240.00"] in
  __init__ emps = Ok (mkPayrollProcessor emps) /\
  generate_report w = (Ok report, w) /\
  exists bs total_gross total_net,
    report = spec_report emps bs total_gross total_net /\
    (0 <= value total_gross)%Q /\ (0 <= value total_net)%Q /\
    (exists cents, format_f 2 total_gross = amount false cents) /\
    (exists cents, format_f 2 total_net = amount false cents).
Proof.
  intros emps w report.
  assert (__init__ emps = Ok (mkPayrollProcessor emps)) as Hi
    by (vm_compute; reflexivity).
  assert (generate_report w = (Ok report, w)) as H
    by (vm_compute; reflexivity).
  split; [exact Hi|]. split; [exact H|].
  exact (report_totals_unsigned emps _ w report w Hi eq_refl H).
Defined.

End NonNegative.

(** ** Exact totals *)

Section ExactTotals.

Local Open Scope Q_scope.











End ExactTotals.

(** ** The script *)

Section Script.

(** X14.  [main] returns normally whatever was printed or logged before:
    it prints the report of its four employees, followed by a newline,
    and logs nothing. *)
Theorem main_prints_report p :
  main p =
  (Ok tt,
   mkProcess
     (stdout p
      ++ join nl ["Employee Payroll Report:";
                  "========================";
                  "John worked 40 hrs, gross $600.00, net $480.00";
                  "Jane worked 38 hrs, gross $646.00, net $516.80";
                  "Doe worked 45 hrs, gross $570.00, net $456.00";
                  "Mark worked 50 hrs, gross $1100.00, net $880.00";
                  "Total Gross: $2916.00";
                  "Total Net: $2332.80"]
      ++ nl)
     (records p)).
Proof.
  unfold main.
  assert (__init__ main_employees = Ok (mkPayrollProcessor main_employees))
    as -> by (vm_compute; reflexivity).
  assert (payrolls main_employees
          = Ok [mkPayroll (dec 0 0) (dec 0 0) (dec 600 0) (dec 1200 (-1))
                  (dec 4800 (-1));
                mkPayroll (dec 0 0) (dec 0 0) (dec 646 0) (dec 1292 (-1))
                  (dec 5168 (-1));
                mkPayroll (dec 5 0) (dec 900 (-1)) (dec 5700 (-1))
                  (dec 11400 (-2)) (dec 45600 (-2));
                mkPayroll (dec 10 0) (dec 3000 (-1)) (dec 11000 (-1))
                  (dec 22000 (-2)) (dec 88000 (-2))]) as Hbs
    by (vm_compute; reflexivity).
  unfold generate_report, try_log. cbn [this employees].
  rewrite (report_loop_run _ _ _ _ _ _ (dec 29160 (-1)) (dec 233280 (-2)) Hbs)
    by (vm_compute; reflexivity).
  unfold print. cbn [stdout records log]. do 3 f_equal.
Qed.

End Script.
